(** * Namespace and schema-location resolution of python-stix

    A shallow embedding of [stix/utils/nsparser.py]: the [NamespaceInfo]
    registry ([collect], [update], [finalize] and its helpers) and the
    rendering functions of [NamespaceParser], followed by the properties
    of the resolution engine.

    Python dictionaries with string keys are [gmap string _], Python sets
    are [gset _].  The source is Python 2, whose dictionaries and sets are
    iterated in an order the language leaves open: every loop of the
    source over [d.iteritems()] or over a set runs here over the list
    given by an [IterOrder], of which only the fact that it enumerates the
    container is known. *)

From stdpp Require Import gmap strings list fin_maps sorting.
From Stdlib Require Import Ascii String.

Open Scope string_scope.

(** ** Python values used by the module *)

(** A one-element tuple [(x,)]. *)
Inductive tuple1 (A : Type) : Type := Tuple1 (x : A).
Arguments Tuple1 {A} x.

(** Truth value of an attribute that is [None] or a string. *)
Definition truthy (o : option string) : bool :=
  match o with
  | Some s => negb (String.eqb s "")
  | None => false
  end.

(** [s.split(":")] *)
Fixpoint split_colon_aux (cur : string) (s : string) : list string :=
  match s with
  | EmptyString => [cur]
  | String c s' =>
      if Ascii.eqb c ":"%char then cur :: split_colon_aux "" s'
      else split_colon_aux (cur ++ String c "") s'
  end.

Definition split_colon (s : string) : list string := split_colon_aux "" s.

(** [sep.join(parts)] *)
Fixpoint join (sep : string) (parts : list string) : string :=
  match parts with
  | [] => ""
  | [p] => p
  | p :: ps => p ++ sep ++ join sep ps
  end.

(** ** Dictionaries *)

(** [dict(pairs)] and dictionary displays: a later pair replaces an earlier
    one with the same key. *)
Definition dict_of_pairs {V} (l : list (string * V)) : gmap string V :=
  foldl (λ m kv, <[kv.1 := kv.2]> m) ∅ l.

(** [a.update(b)]: the entries of [b] replace those of [a]. *)
Definition dict_update {V} (a b : gmap string V) : gmap string V := b ∪ a.

(** [k in d] *)
Definition dict_mem {V} (k : string) (d : gmap string V) : bool :=
  bool_decide (is_Some (d !! k)).

(** Iteration order of dictionaries and sets. *)
Class IterOrder := {
  iteritems : ∀ {V}, gmap string V → list (string * V);
  iteritems_perm : ∀ V (m : gmap string V), iteritems m ≡ₚ map_to_list m;
  iterset : ∀ {A} `{Countable A}, gset A → list A;
  iterset_perm : ∀ A `{Countable A} (s : gset A), iterset s ≡ₚ elements s
}.

(** The order in which stdpp enumerates a map or a set is one such order. *)
#[export] Instance stdpp_order : IterOrder := {|
  iteritems := λ V m, map_to_list m;
  iteritems_perm := λ V m, reflexivity _;
  iterset := λ A _ _ s, elements s;
  iterset_perm := λ A _ _ s, reflexivity _
|}.

Definition iterkeys `{IterOrder} {V} (m : gmap string V) : list string :=
  (iteritems m).*1.

(** ** What the module takes from its collaborators

    [cybox.utils.nsparser.NS_LIST] and [maec.utils.nsparser.NS_LIST] are
    lists of [(namespace, prefix, schemalocation)] triples whose third
    component may be empty or [None]; python-maec may be absent
    ([ImportError], ignored by the module).  [get_id_namespace] and
    [get_id_namespace_alias] come from [stix.utils.idgen]. *)
Record Env := {
  cybox_NS_LIST : list (string * string * option string);
  maec_NS_LIST : option (list (string * string * option string));
  get_id_namespace : string;
  get_id_namespace_alias : string
}.

(** [dict((ns, alias) for (ns, alias, _) in NS_LIST)] *)
Definition ns_to_alias_of (l : list (string * string * option string))
  : gmap string string :=
  dict_of_pairs (map (λ t, (t.1.1, t.1.2)) l).

(** [dict((ns, schemaloc) for ns, _, schemaloc in NS_LIST if schemaloc)] *)
Definition ns_to_schemaloc_of (l : list (string * string * option string))
  : gmap string string :=
  dict_of_pairs
    (omap (λ t, if truthy t.2 then (λ loc, (t.1.1, loc)) <$> t.2 else None) l).

(** ** Module-level tables *)

(** Prefixes that appear in every exported document ([NamespaceInfo._BASELINE_NAMESPACES]). *)
Definition _BASELINE_NAMESPACES : gmap string string :=
  dict_of_pairs [
    ("xsi", "http://www.w3.org/2001/XMLSchema-instance");
    ("stix", "http://stix.mitre.org/stix-1");
    ("stixCommon", "http://stix.mitre.org/common-1");
    ("stixVocabs", "http://stix.mitre.org/default_vocabularies-1");
    ("cybox", "http://cybox.mitre.org/cybox-2");
    ("cyboxCommon", "http://cybox.mitre.org/common-2");
    ("cyboxVocabs", "http://cybox.mitre.org/default_vocabularies-2")
  ].

(** Standard XML namespaces. *)
Definition XML_NAMESPACES : gmap string string :=
  dict_of_pairs [
    ("http://www.w3.org/2001/XMLSchema-instance", "xsi");
    ("http://www.w3.org/2001/XMLSchema", "xs");
    ("http://www.w3.org/1999/xlink", "xlink");
    ("http://www.w3.org/2000/09/xmldsig#", "ds")
  ].

(** Schema locations for namespaces defined by the STIX language. *)
Definition STIX_NS_TO_SCHEMALOCATION : gmap string string :=
  dict_of_pairs [
    ("http://data-marking.mitre.org/Marking-1",
     "http://stix.mitre.org/XMLSchema/data_marking/1.1.1/data_marking.xsd");
    ("http://data-marking.mitre.org/extensions/MarkingStructure#Simple-1",
     "http://stix.mitre.org/XMLSchema/extensions/marking/simple/1.1.1/simple_marking.xsd");
    ("http://data-marking.mitre.org/extensions/MarkingStructure#TLP-1",
     "http://stix.mitre.org/XMLSchema/extensions/marking/tlp/1.1.1/tlp_marking.xsd");
    ("http://data-marking.mitre.org/extensions/MarkingStructure#Terms_Of_Use-1",
     "http://stix.mitre.org/XMLSchema/extensions/marking/terms_of_use/1.0.1/terms_of_use_marking.xsd");
    ("http://stix.mitre.org/Campaign-1",
     "http://stix.mitre.org/XMLSchema/campaign/1.1.1/campaign.xsd");
    ("http://stix.mitre.org/CourseOfAction-1",
     "http://stix.mitre.org/XMLSchema/course_of_action/1.1.1/course_of_action.xsd");
    ("http://stix.mitre.org/ExploitTarget-1",
     "http://stix.mitre.org/XMLSchema/exploit_target/1.1.1/exploit_target.xsd");
    ("http://stix.mitre.org/Incident-1",
     "http://stix.mitre.org/XMLSchema/incident/1.1.1/incident.xsd");
    ("http://stix.mitre.org/Indicator-2",
     "http://stix.mitre.org/XMLSchema/indicator/2.1.1/indicator.xsd");
    ("http://stix.mitre.org/TTP-1",
     "http://stix.mitre.org/XMLSchema/ttp/1.1.1/ttp.xsd");
    ("http://stix.mitre.org/ThreatActor-1",
     "http://stix.mitre.org/XMLSchema/threat_actor/1.1.1/threat_actor.xsd");
    ("http://stix.mitre.org/common-1",
     "http://stix.mitre.org/XMLSchema/common/1.1.1/stix_common.xsd");
    ("http://stix.mitre.org/default_vocabularies-1",
     "http://stix.mitre.org/XMLSchema/default_vocabularies/1.1.1/stix_default_vocabularies.xsd");
    ("http://stix.mitre.org/extensions/AP#CAPEC2.7-1",
     "http://stix.mitre.org/XMLSchema/extensions/attack_pattern/capec_2.7/1.0.1/capec_2.7_attack_pattern.xsd");
    ("http://stix.mitre.org/extensions/Address#CIQAddress3.0-1",
     "http://stix.mitre.org/XMLSchema/extensions/address/ciq_3.0/1.1.1/ciq_3.0_address.xsd");
    ("http://stix.mitre.org/extensions/Identity#CIQIdentity3.0-1",
     "http://stix.mitre.org/XMLSchema/extensions/identity/ciq_3.0/1.1.1/ciq_3.0_identity.xsd");
    ("http://stix.mitre.org/extensions/Malware#MAEC4.1-1",
     "http://stix.mitre.org/XMLSchema/extensions/malware/maec_4.1/1.0.1/maec_4.1_malware.xsd");
    ("http://stix.mitre.org/extensions/StructuredCOA#Generic-1",
     "http://stix.mitre.org/XMLSchema/extensions/structured_coa/generic/1.1.1/generic_structured_coa.xsd");
    ("http://stix.mitre.org/extensions/TestMechanism#Generic-1",
     "http://stix.mitre.org/XMLSchema/extensions/test_mechanism/generic/1.1.1/generic_test_mechanism.xsd");
    ("http://stix.mitre.org/extensions/TestMechanism#OVAL5.10-1",
     "http://stix.mitre.org/XMLSchema/extensions/test_mechanism/oval_5.10/1.1.1/oval_5.10_test_mechanism.xsd");
    ("http://stix.mitre.org/extensions/TestMechanism#OpenIOC2010-1",
     "http://stix.mitre.org/XMLSchema/extensions/test_mechanism/open_ioc_2010/1.1.1/open_ioc_2010_test_mechanism.xsd");
    ("http://stix.mitre.org/extensions/TestMechanism#Snort-1",
     "http://stix.mitre.org/XMLSchema/extensions/test_mechanism/snort/1.1.1/snort_test_mechanism.xsd");
    ("http://stix.mitre.org/extensions/TestMechanism#YARA-1",
     "http://stix.mitre.org/XMLSchema/extensions/test_mechanism/yara/1.1.1/yara_test_mechanism.xsd");
    ("http://stix.mitre.org/extensions/Vulnerability#CVRF-1",
     "http://stix.mitre.org/XMLSchema/extensions/vulnerability/cvrf_1.1/1.1.1/cvrf_1.1_vulnerability.xsd");
    ("http://stix.mitre.org/stix-1",
     "http://stix.mitre.org/XMLSchema/core/1.1.1/stix_core.xsd")
  ].

(** Schema locations for namespaces hosted on the STIX website. *)
Definition EXT_NS_TO_SCHEMALOCATION : gmap string string :=
  dict_of_pairs [
    ("urn:oasis:names:tc:ciq:xal:3",
     "http://stix.mitre.org/XMLSchema/external/oasis_ciq_3.0/xAL.xsd");
    ("urn:oasis:names:tc:ciq:xpil:3",
     "http://stix.mitre.org/XMLSchema/external/oasis_ciq_3.0/xPIL.xsd");
    ("urn:oasis:names:tc:ciq:xnl:3",
     "http://stix.mitre.org/XMLSchema/external/oasis_ciq_3.0/xNL.xsd")
  ].

(** Default namespace-to-alias mappings. *)
Definition DEFAULT_STIX_NS_TO_PREFIX : gmap string string :=
  dict_of_pairs [
    ("http://cybox.mitre.org/common-2", "cyboxCommon");
    ("http://cybox.mitre.org/cybox-2", "cybox");
    ("http://data-marking.mitre.org/Marking-1", "marking");
    ("http://data-marking.mitre.org/extensions/MarkingStructure#Simple-1",
     "simpleMarking");
    ("http://data-marking.mitre.org/extensions/MarkingStructure#TLP-1",
     "tlpMarking");
    ("http://data-marking.mitre.org/extensions/MarkingStructure#Terms_Of_Use-1",
     "TOUMarking");
    ("http://stix.mitre.org/Campaign-1", "campaign");
    ("http://stix.mitre.org/CourseOfAction-1", "coa");
    ("http://stix.mitre.org/ExploitTarget-1", "et");
    ("http://stix.mitre.org/Incident-1", "incident");
    ("http://stix.mitre.org/Indicator-2", "indicator");
    ("http://stix.mitre.org/TTP-1", "ttp");
    ("http://stix.mitre.org/ThreatActor-1", "ta");
    ("http://stix.mitre.org/stix-1", "stix");
    ("http://stix.mitre.org/common-1", "stixCommon");
    ("http://stix.mitre.org/default_vocabularies-1", "stixVocabs");
    ("http://stix.mitre.org/extensions/AP#CAPEC2.7-1", "stix-capec");
    ("http://stix.mitre.org/extensions/Address#CIQAddress3.0-1",
     "stix-ciqaddress");
    ("http://stix.mitre.org/extensions/Identity#CIQIdentity3.0-1",
     "ciqIdentity");
    ("http://stix.mitre.org/extensions/Malware#MAEC4.1-1", "stix-maec");
    ("http://stix.mitre.org/extensions/StructuredCOA#Generic-1",
     "genericStructuredCOA");
    ("http://stix.mitre.org/extensions/TestMechanism#Generic-1",
     "genericTM");
    ("http://stix.mitre.org/extensions/TestMechanism#OVAL5.10-1",
     "stix-oval");
    ("http://stix.mitre.org/extensions/TestMechanism#OpenIOC2010-1",
     "stix-openioc");
    ("http://stix.mitre.org/extensions/TestMechanism#Snort-1",
     "snortTM");
    ("http://stix.mitre.org/extensions/TestMechanism#YARA-1", "yaraTM");
    ("http://stix.mitre.org/extensions/Vulnerability#CVRF-1",
     "stix-cvrf")
  ].

(** Extension namespaces and their typical prefixes. *)
Definition DEFAULT_EXT_TO_PREFIX : gmap string string :=
  dict_of_pairs [
    ("http://capec.mitre.org/capec-2", "capec");
    ("http://maec.mitre.org/XMLSchema/maec-package-2", "maecPackage");
    ("http://oval.mitre.org/XMLSchema/oval-definitions-5", "oval-def");
    ("http://oval.mitre.org/XMLSchema/oval-variables-5", "oval-var");
    ("http://schemas.mandiant.com/2010/ioc", "ioc");
    ("http://schemas.mandiant.com/2010/ioc/TR/", "ioc-tr");
    ("http://www.icasi.org/CVRF/schema/cvrf/1.1", "cvrf");
    ("urn:oasis:names:tc:ciq:xal:3", "xal");
    ("urn:oasis:names:tc:ciq:xpil:3", "xpil");
    ("urn:oasis:names:tc:ciq:xnl:3", "xnl")
  ].

Section Tables.
Variable env : Env.

Definition CYBOX_NS_TO_SCHEMALOCATION : gmap string string :=
  ns_to_schemaloc_of (cybox_NS_LIST env).

Definition DEFAULT_CYBOX_NAMESPACES : gmap string string :=
  ns_to_alias_of (cybox_NS_LIST env).

Definition maec_vocabs_ns : string :=
  "http://maec.mitre.org/default_vocabularies-1".

(** The python-maec support code at the end of the module deletes the
    MAEC vocabulary namespace from [ns_to_prefix] with [del]; when
    python-maec is importable and its list lacks that namespace the
    module itself does not load. *)
Definition module_loads : bool :=
  match maec_NS_LIST env with
  | None => true
  | Some l => dict_mem maec_vocabs_ns (ns_to_alias_of l)
  end.

Definition maec_ns_to_prefix (l : list (string * string * option string))
  : gmap string string :=
  delete maec_vocabs_ns (ns_to_alias_of l).

(** [dict(itertools.chain(...))] followed by the python-maec update. *)
Definition DEFAULT_STIX_NAMESPACES : gmap string string :=
  let chained :=
    dict_update
      (dict_update
         (dict_update (dict_update ∅ DEFAULT_CYBOX_NAMESPACES) XML_NAMESPACES)
         DEFAULT_STIX_NS_TO_PREFIX)
      DEFAULT_EXT_TO_PREFIX in
  match maec_NS_LIST env with
  | None => chained
  | Some l => dict_update chained (maec_ns_to_prefix l)
  end.

(** [ns in DEFAULT_STIX_NAMESPACES_TUPLE]: the tuple holds the keys of
    [DEFAULT_STIX_NAMESPACES]. *)
Definition in_DEFAULT_STIX_NAMESPACES_TUPLE (ns : string) : bool :=
  dict_mem ns DEFAULT_STIX_NAMESPACES.

Definition DEFAULT_STIX_SCHEMALOCATIONS : gmap string string :=
  let chained :=
    dict_update
      (dict_update (dict_update ∅ STIX_NS_TO_SCHEMALOCATION)
         EXT_NS_TO_SCHEMALOCATION)
      CYBOX_NS_TO_SCHEMALOCATION in
  match maec_NS_LIST env with
  | None => chained
  | Some l => dict_update chained (ns_to_schemaloc_of l)
  end.
End Tables.

(** ** Entities and their classes *)

(** A class as the module sees it: whether it derives from [stix.Entity]
    or [cybox.Entity], and what [getattr(klass, name, None)] gives for the
    three class-level attributes. *)
Record Klass := {
  klass_name : string;
  is_entity : bool;
  _namespace : option string;
  _XSI_NS : option string;
  _XSI_TYPE : option string
}.

#[export] Instance Klass_eq_dec : EqDecision Klass.
Proof. solve_decision. Defined.

#[export] Instance Klass_countable : Countable Klass.
Proof.
  refine (inj_countable'
            (λ k, (klass_name k, is_entity k, _namespace k, _XSI_NS k, _XSI_TYPE k))
            (λ t, {| klass_name := t.1.1.1.1; is_entity := t.1.1.1.2;
                     _namespace := t.1.1.2; _XSI_NS := t.1.2; _XSI_TYPE := t.2 |})
            _).
  by intros [].
Defined.

(** An entity: the method resolution order of its class, and the two
    attributes a parsed entity carries ([hasattr] is [Some]). *)
Record Entity := {
  __mro__ : list Klass;
  __input_namespaces__ : option (gmap string string);
  __input_schemalocations__ : option (gmap string string)
}.

(** ** Exceptions and the registry monad *)

Inductive exn :=
| DuplicatePrefixError (message prefix : string)
    (source_ns : tuple1 string) (dest_ns : string)
| KeyError (key : option string)
| AttributeError (name : string).

Inductive result (A : Type) : Type :=
| Ok (a : A)
| Raise (e : exn).
Arguments Ok {A} a.
Arguments Raise {A} e.

Definition rbind {A B} (r : result A) (k : A → result B) : result B :=
  match r with
  | Ok a => k a
  | Raise e => Raise e
  end.

#[export] Instance result_ret : MRet result := @Ok.
#[export] Instance result_bind : MBind result := λ A B k r, rbind r k.

(** A loop whose body may raise: the first exception ends it. *)
Fixpoint for_each {A S} (body : S → A → result S) (s : S) (l : list A)
  : result S :=
  match l with
  | [] => Ok s
  | x :: l' => s' ← body s x; for_each body s' l'
  end.

(** ** [class NamespaceInfo] *)

Module NamespaceInfo.

(** The registry.  The dictionary [_collected_namespaces] has the key
    [None] (bound to the set of namespaces without a prefix) beside its
    string keys: [_collected_namespaces_None] is the value under [None],
    if that key is present, and [_collected_namespaces] the rest. *)
Record t := {
  _collected_namespaces_None : option (gset string);
  _collected_namespaces : gmap string string;
  _input_namespaces : gmap string string;
  _input_schemalocs : gmap string string;
  _collected_classes : gset Klass;
  finalized_namespaces : option (gmap string string);
  finalized_schemalocs : option (gmap string string)
}.

Definition __init__ : t := {|
  _collected_namespaces_None := Some ∅;
  _collected_namespaces := ∅;
  _input_namespaces := ∅;
  _input_schemalocs := ∅;
  _collected_classes := ∅;
  finalized_namespaces := None;
  finalized_schemalocs := None
|}.

Definition set_collected (b : option (gset string)) (c : gmap string string)
    (self : t) : t :=
  {| _collected_namespaces_None := b;
     _collected_namespaces := c;
     _input_namespaces := _input_namespaces self;
     _input_schemalocs := _input_schemalocs self;
     _collected_classes := _collected_classes self;
     finalized_namespaces := finalized_namespaces self;
     finalized_schemalocs := finalized_schemalocs self |}.

Definition set_input_namespaces (m : gmap string string) (self : t) : t :=
  {| _collected_namespaces_None := _collected_namespaces_None self;
     _collected_namespaces := _collected_namespaces self;
     _input_namespaces := m;
     _input_schemalocs := _input_schemalocs self;
     _collected_classes := _collected_classes self;
     finalized_namespaces := finalized_namespaces self;
     finalized_schemalocs := finalized_schemalocs self |}.

Definition set_input_schemalocs (m : gmap string string) (self : t) : t :=
  {| _collected_namespaces_None := _collected_namespaces_None self;
     _collected_namespaces := _collected_namespaces self;
     _input_namespaces := _input_namespaces self;
     _input_schemalocs := m;
     _collected_classes := _collected_classes self;
     finalized_namespaces := finalized_namespaces self;
     finalized_schemalocs := finalized_schemalocs self |}.

Definition set_collected_classes (s : gset Klass) (self : t) : t :=
  {| _collected_namespaces_None := _collected_namespaces_None self;
     _collected_namespaces := _collected_namespaces self;
     _input_namespaces := _input_namespaces self;
     _input_schemalocs := _input_schemalocs self;
     _collected_classes := s;
     finalized_namespaces := finalized_namespaces self;
     finalized_schemalocs := finalized_schemalocs self |}.

Definition set_finalized_namespaces (m : gmap string string) (self : t) : t :=
  {| _collected_namespaces_None := _collected_namespaces_None self;
     _collected_namespaces := _collected_namespaces self;
     _input_namespaces := _input_namespaces self;
     _input_schemalocs := _input_schemalocs self;
     _collected_classes := _collected_classes self;
     finalized_namespaces := Some m;
     finalized_schemalocs := finalized_schemalocs self |}.

Definition set_finalized_schemalocs (m : gmap string string) (self : t) : t :=
  {| _collected_namespaces_None := _collected_namespaces_None self;
     _collected_namespaces := _collected_namespaces self;
     _input_namespaces := _input_namespaces self;
     _input_schemalocs := _input_schemalocs self;
     _collected_classes := _collected_classes self;
     finalized_namespaces := finalized_namespaces self;
     finalized_schemalocs := Some m |}.

(** Methods run on the registry and return a value or raise; what they
    wrote to the registry before raising stays written. *)
Definition M (A : Type) : Type := t → t * result A.

Definition ret {A} (a : A) : M A := λ self, (self, Ok a).
Definition raise {A} (e : exn) : M A := λ self, (self, Raise e).
Definition bind {A B} (m : M A) (k : A → M B) : M B :=
  λ self,
    match m self with
    | (self', Ok a) => k a self'
    | (self', Raise e) => (self', Raise e)
    end.
Definition get : M t := λ self, (self, Ok self).
Definition modify (f : t → t) : M unit := λ self, (f self, Ok tt).
Definition lift {A} (r : result A) : M A := λ self, (self, r).

#[export] Instance M_ret : MRet M := @ret.
#[export] Instance M_bind : MBind M := λ A B k m, bind m k.

(** [update]: three [dict.update] calls.  The key [None] of the other
    registry's [_collected_namespaces], when present, replaces this
    registry's.  In Python the set under it is then shared by the two
    registries; the registries are values here, and the sharing is not
    followed. *)
Definition update (self ns_info : t) : t :=
  let self :=
    set_collected
      (match _collected_namespaces_None ns_info with
       | Some b => Some b
       | None => _collected_namespaces_None self
       end)
      (dict_update (_collected_namespaces self) (_collected_namespaces ns_info))
      self in
  let self :=
    set_input_namespaces
      (dict_update (_input_namespaces self) (_input_namespaces ns_info)) self in
  set_input_schemalocs
    (dict_update (_input_schemalocs self) (_input_schemalocs ns_info)) self.

(** [collect] *)
Definition collect (self : t) (entity : Entity) : t :=
  let self :=
    set_collected_classes
      (_collected_classes self ∪ list_to_set (__mro__ entity)) self in
  let self :=
    match __input_namespaces__ entity with
    | Some m => set_input_namespaces (dict_update (_input_namespaces self) m) self
    | None => self
    end in
  match __input_schemalocations__ entity with
  | Some m => set_input_schemalocs (dict_update (_input_schemalocs self) m) self
  | None => self
  end.

Section Methods.
Context `{IterOrder} (env : Env).

(** Body of the loop of [_parse_collected_classes], on the unaliased
    bucket and the string-keyed part of [_collected_namespaces]. *)
Definition parse_class (acc : gset string * gmap string string)
    (klass : Klass) : gset string * gmap string string :=
  let '(no_alias, collected) := acc in
  let ns := _namespace klass in
  if negb (truthy ns) then acc
  else
    let ns := default "" ns in
    let alias := _XSI_NS klass in
    if truthy alias then (no_alias, <[default "" alias := ns]> collected)
    else
      let xsi_type := _XSI_TYPE klass in
      if negb (truthy xsi_type) then ({[ns]} ∪ no_alias, collected)
      else
        match split_colon (default "" xsi_type) with
        | [prefix; _] => (no_alias, <[prefix := ns]> collected)
        | _ => ({[ns]} ∪ no_alias, collected)
        end.

Definition _parse_collected_classes : M unit :=
  self ← get;
  let collected := _collected_classes self in
  let entity_subclasses := filter (λ k, is_entity k = true) (iterset collected) in
  match _collected_namespaces_None self with
  | None => raise (KeyError None)
  | Some bucket =>
      let '(bucket, aliased) :=
        foldl parse_class (bucket, _collected_namespaces self)
          entity_subclasses in
      modify (set_collected (Some bucket) aliased)
  end.

Definition sample_ns : string := "http://example.com/".
Definition api_ns : string := "http://example.com".
Definition example_prefix : string := "example".

(** [_fix_example_namespace]; the result is the second argument after
    the call. *)
Definition _fix_example_namespace (ns_dict input_namespaces : gmap string string)
  : gmap string string :=
  let dup_example :=
    (bool_decide (input_namespaces !! sample_ns = Some example_prefix),
     bool_decide (ns_dict !! api_ns = Some example_prefix)) in
  if dup_example.1 && dup_example.2
  then delete sample_ns input_namespaces
  else input_namespaces.

Definition conflict_message (prefix namespace current_ns : string) : string :=
  "Cannot map namespace prefix '" ++ prefix ++ "' to '" ++ namespace
  ++ "': prefix already mapped to '" ++ current_ns ++ "'.".

Definition _check_namespace_alias (ns_dict : gmap string string)
    (prefix namespace : string) : result unit :=
  match ns_dict !! prefix with
  | None => Ok tt
  | Some current_ns =>
      if bool_decide (current_ns = namespace) then Ok tt
      else
        Raise (DuplicatePrefixError
                 (conflict_message prefix namespace current_ns)
                 prefix (Tuple1 current_ns) namespace)
  end.

(** The check followed by the assignment [d[alias] = ns]. *)
Definition check_and_assign (d : gmap string string) (alias ns : string)
  : result (gmap string string) :=
  _ ← _check_namespace_alias d alias ns;
  Ok (<[alias := ns]> d).

(** An optional dictionary argument counts when it is neither [None]
    nor empty. *)
Definition dict_truthy {V} (o : option (gmap string V)) : bool :=
  match o with
  | Some m => negb (bool_decide (m = ∅))
  | None => false
  end.

(** The baseline namespaces with the id namespace assigned on top. *)
Definition seed_namespaces : gmap string string :=
  let '(id_ns_alias, id_ns) :=
    (get_id_namespace_alias env, get_id_namespace env) in
  let d_ns := _BASELINE_NAMESPACES in
  <[id_ns_alias := id_ns]> d_ns.

(** Bodies of the loops of [_finalize_namespaces]. *)
Definition input_step (d_ns : gmap string string) (item : string * string)
  : result (gmap string string) :=
  let '(alias, ns) := item in
  if in_DEFAULT_STIX_NAMESPACES_TUPLE env ns then Ok d_ns
  else check_and_assign d_ns alias ns.

Definition no_alias_step (d_ns : gmap string string) (ns : string)
  : result (gmap string string) :=
  match DEFAULT_STIX_NAMESPACES env !! ns with
  | None => Raise (KeyError (Some ns))
  | Some alias => check_and_assign d_ns alias ns
  end.

Definition alias_step (d : gmap string string) (item : string * string)
  : result (gmap string string) :=
  let '(alias, ns) := item in
  check_and_assign d alias ns.

(** [dict((alias, ns) for ns, alias in ns_dict.iteritems())] *)
Definition invert (ns_dict : gmap string string) : gmap string string :=
  dict_of_pairs (map (λ kv, (kv.2, kv.1)) (iteritems ns_dict)).

Definition _finalize_namespaces (ns_dict : option (gmap string string))
  : M (gmap string string) :=
  let ns_dict :=
    if dict_truthy ns_dict then invert (default ∅ ns_dict) else ∅ in
  let d_ns := seed_namespaces in
  self ← get;
  let input_namespaces := _fix_example_namespace d_ns (_input_namespaces self) in
  modify (set_input_namespaces input_namespaces);;
  d_ns ← lift (for_each input_step d_ns (iteritems input_namespaces));
  let no_alias := default ∅ (_collected_namespaces_None self) in
  let collected := _collected_namespaces self in
  modify (set_collected None collected);;
  d_ns ← lift (for_each no_alias_step d_ns (iterset no_alias));
  d_ns ← lift (for_each alias_step d_ns (iteritems collected));
  ns_dict ← lift (for_each alias_step ns_dict (iteritems d_ns));
  mret ns_dict.

Definition schemaloc_warning (ns : string) : string :=
  "Unable to map namespace '" ++ ns ++ "' to schemaLocation".

(** Bodies of the two loops of [_finalize_schemalocs]; the second also
    gathers the warnings it issues. *)
Definition input_schemaloc_step (schemaloc_dict : gmap string string)
    (item : string * string) : gmap string string :=
  let '(ns, loc) := item in
  if dict_mem ns schemaloc_dict then schemaloc_dict
  else <[ns := loc]> schemaloc_dict.

Definition schemaloc_step (acc : gmap string string * list string)
    (ns : string) : gmap string string * list string :=
  let '(schemaloc_dict, warned) := acc in
  match DEFAULT_STIX_SCHEMALOCATIONS env !! ns with
  | Some loc => (<[ns := loc]> schemaloc_dict, warned)
  | None =>
      if dict_mem ns schemaloc_dict then acc
      else if bool_decide (ns = get_id_namespace env)
              || dict_mem ns XML_NAMESPACES then acc
      else (schemaloc_dict, (warned ++ [schemaloc_warning ns])%list)
  end.

Definition _finalize_schemalocs (schemaloc_dict : option (gmap string string))
  : M (gmap string string * list string) :=
  let schemaloc_dict :=
    if dict_truthy schemaloc_dict then default ∅ schemaloc_dict else ∅ in
  self ← get;
  let schemaloc_dict :=
    foldl input_schemaloc_step schemaloc_dict
      (iteritems (_input_schemalocs self)) in
  match finalized_namespaces self with
  | None => raise (AttributeError "iterkeys")
  | Some finalized =>
      mret (foldl schemaloc_step (schemaloc_dict, []) (iterkeys finalized))
  end.

(** [finalize]; its value is the list of warnings issued on the way. *)
Definition finalize (ns_dict schemaloc_dict : option (gmap string string))
  : M (list string) :=
  _parse_collected_classes;;
  namespaces ← _finalize_namespaces ns_dict;
  modify (set_finalized_namespaces namespaces);;
  '(schemalocs, warned) ← _finalize_schemalocs schemaloc_dict;
  modify (set_finalized_schemalocs schemalocs);;
  mret warned.

Definition duplicate_alias_warning (alias ns : string) : string :=
  "namespace alias '" ++ alias ++ "' mapped to '" ++ ns ++ "' and '"
  ++ alias ++ "'".

(** Body of the loop of [_validate_namespaces], on the dictionary
    [aliases] and the warnings issued so far. *)
Definition validate_step (acc : gmap string string * list string)
    (item : string * string) : gmap string string * list string :=
  let '(aliases, warned) := acc in
  let '(ns, alias) := item in
  if negb (dict_mem alias aliases) then (<[alias := ns]> aliases, warned)
  else (aliases, (warned ++ [duplicate_alias_warning alias ns])%list).

(** [_validate_namespaces]: its value is the list of warnings it issues. *)
Definition _validate_namespaces (ns_dict : gmap string string) : list string :=
  (foldl validate_step (∅, []) (iteritems ns_dict)).2.
End Methods.
End NamespaceInfo.

(** ** [class NamespaceParser] *)

Module NamespaceParser.
Import NamespaceInfo.

(** Order of Python 2 on byte strings and on pairs of them, as used by
    [sorted] on the items of a dictionary. *)
Definition item_le (x y : string * string) : Prop :=
  match String.compare x.1 y.1 with
  | Lt => True
  | Eq => String.leb x.2 y.2 = true
  | Gt => False
  end.

#[export] Instance item_le_dec : RelDecision item_le.
Proof.
  intros x y. unfold item_le.
  destruct (String.compare x.1 y.1); apply _.
Defined.

Definition sorted (l : list (string * string)) : list (string * string) :=
  merge_sort item_le l.

Definition quote : string := String "034"%char "".
Definition newline_tab : string := String "010"%char (String "009"%char "").

Section Methods.
Context `{IterOrder} (env : Env).

(** [iterwalk(entity)] is given as the list of nodes it yields. *)
Definition collect_all (nodes : list Entity) : NamespaceInfo.t :=
  foldl collect __init__ nodes.

Definition get_namespaces (nodes : list Entity)
    (ns_dict : option (gmap string string))
  : result (option (gmap string string)) :=
  let ns_info := collect_all nodes in
  match finalize env ns_dict None ns_info with
  | (ns_info, Ok _) => Ok (finalized_namespaces ns_info)
  | (_, Raise e) => Raise e
  end.

Definition get_namespace_schemalocation_dict (nodes : list Entity)
    (ns_dict schemaloc_dict : option (gmap string string))
  : result (option (gmap string string)) :=
  let ns_info := collect_all nodes in
  match finalize env ns_dict schemaloc_dict ns_info with
  | (ns_info, Ok _) => Ok (finalized_schemalocs ns_info)
  | (_, Raise e) => Raise e
  end.

(** One line of [get_xmlns_str], for an item [(ns, alias)]. *)
Definition xmlns_line (item : string * string) : string :=
  let '(ns, alias) := item in
  "xmlns:" ++ alias ++ "=" ++ quote ++ ns ++ quote.

Definition get_xmlns_str (ns_dict : gmap string string) : string :=
  let pairs := sorted (iteritems ns_dict) in
  join newline_tab (map xmlns_line pairs).

Definition schemaloc_line (item : string * string) : string :=
  let '(ns, loc) := item in
  ns ++ " " ++ loc.

Definition get_schemaloc_str (schemaloc_dict : gmap string string) : string :=
  if bool_decide (schemaloc_dict = ∅) then ""
  else
    let schemaloc_str_start :=
      "xsi:schemaLocation=" ++ quote ++ newline_tab in
    let schemaloc_str_end := quote in
    let pairs := sorted (iteritems schemaloc_dict) in
    let schemaloc_str_content :=
      join newline_tab (map schemaloc_line pairs) in
    schemaloc_str_start ++ schemaloc_str_content ++ schemaloc_str_end.

Definition get_namespace_def_str (namespaces schemaloc_dict : gmap string string)
  : string :=
  if bool_decide (namespaces = ∅) && bool_decide (schemaloc_dict = ∅) then ""
  else
    join newline_tab
      [get_xmlns_str namespaces; get_schemaloc_str schemaloc_dict].
End Methods.
End NamespaceParser.

Import NamespaceInfo NamespaceParser.

(** ** Vocabulary of the properties *)

(** The seven baseline prefixes; they are the keys of
    [_BASELINE_NAMESPACES] ([baseline_prefixes_dom]). *)
Definition baseline_prefixes : list string :=
  ["xsi"; "stix"; "stixCommon"; "stixVocabs"; "cybox"; "cyboxCommon"; "cyboxVocabs"].

(** A loop over [l] from state [s0] reaches the element [x] in state [s]:
    the elements before [x] went through without an exception. *)
Definition reaches {A S} (body : S → A → result S) (s0 : S) (l : list A)
    (s : S) (x : A) : Prop :=
  ∃ l1 l2, l = (l1 ++ x :: l2)%list ∧ for_each body s0 l1 = Ok s.

(** The places where [_finalize_namespaces] writes a prefix into one of
    its two working dictionaries: the assignment of the id namespace on
    top of the baseline, the three loops that fill [d_ns], and the final
    loop that lays [d_ns] over the caller's dictionary. *)
Inductive binding_step :=
| Seeding | FromInput | FromUnaliased | FromCollected | Overlay.

Section Bindings.
Context `{IterOrder} (env : Env).
Variable ns_dict : option (gmap string string).
Variable self : NamespaceInfo.t.

Definition fixed_input : gmap string string :=
  _fix_example_namespace (seed_namespaces env) (_input_namespaces self).

Definition after_input : result (gmap string string) :=
  for_each (input_step env) (seed_namespaces env) (iteritems fixed_input).

Definition unaliased : list string :=
  iterset (default ∅ (_collected_namespaces_None self)).

Definition caller_base : gmap string string :=
  if dict_truthy ns_dict then invert (default ∅ ns_dict) else ∅.

(** [binds step d prefix ns]: [_finalize_namespaces], run with the
    caller's [ns_dict] on the registry [self], comes to write
    [prefix := ns] at [step], into a dictionary that holds [d] at that
    moment. *)
Inductive binds : binding_step → gmap string string → string → string → Prop :=
| binds_seeding :
    binds Seeding _BASELINE_NAMESPACES
      (get_id_namespace_alias env) (get_id_namespace env)
| binds_input d alias ns :
    reaches (input_step env) (seed_namespaces env) (iteritems fixed_input)
      d (alias, ns) →
    in_DEFAULT_STIX_NAMESPACES_TUPLE env ns = false →
    binds FromInput d alias ns
| binds_unaliased d1 d alias ns :
    after_input = Ok d1 →
    reaches (no_alias_step env) d1 unaliased d ns →
    DEFAULT_STIX_NAMESPACES env !! ns = Some alias →
    binds FromUnaliased d alias ns
| binds_collected d1 d2 d alias ns :
    after_input = Ok d1 →
    for_each (no_alias_step env) d1 unaliased = Ok d2 →
    reaches alias_step d2 (iteritems (_collected_namespaces self)) d (alias, ns) →
    binds FromCollected d alias ns
| binds_overlay d1 d2 d3 d alias ns :
    after_input = Ok d1 →
    for_each (no_alias_step env) d1 unaliased = Ok d2 →
    for_each alias_step d2 (iteritems (_collected_namespaces self)) = Ok d3 →
    reaches alias_step caller_base (iteritems d3) d (alias, ns) →
    binds Overlay d alias ns.
End Bindings.

(** The prefix [_parse_collected_classes] derives for a class: its
    [_XSI_NS], else the first part of a two-part [_XSI_TYPE], else none. *)
Definition derived_prefix (klass : Klass) : option string :=
  if truthy (_XSI_NS klass) then _XSI_NS klass
  else if truthy (_XSI_TYPE klass) then
    match split_colon (default "" (_XSI_TYPE klass)) with
    | [prefix; _] => Some prefix
    | _ => None
    end
  else None.

(** The classes [_parse_collected_classes] acts on: entity classes with a
    namespace that is neither [None] nor empty. *)
Definition contributes (klass : Klass) (ns : string) : Prop :=
  is_entity klass = true ∧ _namespace klass = Some ns ∧ ns ≠ "".

(** No colon occurs in the string. *)
Fixpoint colon_free (s : string) : bool :=
  match s with
  | EmptyString => true
  | String c s' => negb (Ascii.eqb c ":"%char) && colon_free s'
  end.

(** ** Concrete collaborators used by the examples *)

(** An excerpt of cybox's namespace list, python-maec absent, and the id
    namespace python-stix starts with. *)
Definition example_env : Env := {|
  cybox_NS_LIST := [
    ("http://cybox.mitre.org/common-2", "cyboxCommon",
     Some "http://cybox.mitre.org/XMLSchema/common/2.1/cybox_common.xsd");
    ("http://cybox.mitre.org/cybox-2", "cybox",
     Some "http://cybox.mitre.org/XMLSchema/core/2.1/cybox_core.xsd");
    ("http://cybox.mitre.org/default_vocabularies-2", "cyboxVocabs",
     Some "http://cybox.mitre.org/XMLSchema/default_vocabularies/2.1/cybox_default_vocabularies.xsd");
    ("http://cybox.mitre.org/objects#AddressObject-2", "AddressObj",
     Some "http://cybox.mitre.org/XMLSchema/objects/Address/2.1/Address_Object.xsd")
  ];
  maec_NS_LIST := None;
  get_id_namespace := "http://example.com";
  get_id_namespace_alias := "example"
|}.


(** The same collaborators, with an id namespace whose prefix is the
    baseline prefix [stix]. *)
Definition stix_id_env : Env := {|
  cybox_NS_LIST := cybox_NS_LIST example_env;
  maec_NS_LIST := None;
  get_id_namespace := "http://example.com";
  get_id_namespace_alias := "stix"
|}.

(** A node with no class of interest that was parsed from a document
    declaring the given prefixes. *)
Definition parsed_node (input_namespaces : gmap string string) : Entity := {|
  __mro__ := [];
  __input_namespaces__ := Some input_namespaces;
  __input_schemalocations__ := None
|}.

(** A programmatically built node of the given class. *)
Definition node_of (klass : Klass) : Entity := {|
  __mro__ := [klass];
  __input_namespaces__ := None;
  __input_schemalocations__ := None
|}.

(** The registry after visiting a parsed document that binds [stix] to a
    namespace of its own. *)
Definition stix_clash_registry : NamespaceInfo.t :=
  collect __init__ (parsed_node {[ "stix" := "http://example.org/other" ]}).

(** An entity class of an extension: a namespace of its own, no prefix, no
    [_XSI_TYPE]. *)
Definition custom_klass : Klass := {|
  klass_name := "CustomEntity";
  is_entity := true;
  _namespace := Some "http://custom.example.org/ns-1";
  _XSI_NS := None;
  _XSI_TYPE := None
|}.

(** The fresh registry after [finalize()], and the warnings of that call. *)
Definition fresh_finalized : NamespaceInfo.t :=
  (finalize example_env None None __init__).1.

Definition fresh_warnings : list string :=
  match (finalize example_env None None __init__).2 with
  | Ok warned => warned
  | Raise _ => []
  end.

(** The registry [stix_clash_registry] as its failed merge leaves it. *)
Definition stix_clash_after_merge : NamespaceInfo.t :=
  (_finalize_namespaces example_env None stix_clash_registry).1.

(** Two classes of python-stix: the package, and the indicator. *)
Definition STIXPackage_klass : Klass := {|
  klass_name := "STIXPackage";
  is_entity := true;
  _namespace := Some "http://stix.mitre.org/stix-1";
  _XSI_NS := None;
  _XSI_TYPE := None
|}.

Definition Indicator_klass : Klass := {|
  klass_name := "Indicator";
  is_entity := true;
  _namespace := Some "http://stix.mitre.org/Indicator-2";
  _XSI_NS := None;
  _XSI_TYPE := Some "indicator:IndicatorType"
|}.

(** A parsed document that declares the example namespace with a
    trailing slash under the prefix of the id namespace. *)
Definition slash_registry : NamespaceInfo.t :=
  collect __init__ (parsed_node {[ "example" := "http://example.com/" ]}).

(** The same declaration, keyed by the namespace. *)
Definition slash_registry_by_ns : NamespaceInfo.t :=
  collect __init__ (parsed_node {[ "http://example.com/" := "example" ]}).

(** A caller's schema location for the STIX core namespace. *)
Definition own_stix_schemaloc : gmap string string :=
  {[ "http://stix.mitre.org/stix-1" := "http://example.org/schemas/stix_core.xsd" ]}.

(** The text [get_xmlns_str] yields for the finalized namespaces of a
    fresh registry. *)
Definition fresh_xmlns_str : string :=
  join newline_tab [
    "xmlns:http://cybox.mitre.org/cybox-2=" ++ quote ++ "cybox" ++ quote;
    "xmlns:http://cybox.mitre.org/common-2=" ++ quote ++ "cyboxCommon" ++ quote;
    "xmlns:http://cybox.mitre.org/default_vocabularies-2=" ++ quote ++ "cyboxVocabs" ++ quote;
    "xmlns:http://example.com=" ++ quote ++ "example" ++ quote;
    "xmlns:http://stix.mitre.org/stix-1=" ++ quote ++ "stix" ++ quote;
    "xmlns:http://stix.mitre.org/common-1=" ++ quote ++ "stixCommon" ++ quote;
    "xmlns:http://stix.mitre.org/default_vocabularies-1=" ++ quote ++ "stixVocabs" ++ quote;
    "xmlns:http://www.w3.org/2001/XMLSchema-instance=" ++ quote ++ "xsi" ++ quote
  ].

(** The finalized binding of a prefix, if any. *)
Definition finalized_prefix (self : NamespaceInfo.t) (prefix : string)
  : option string :=
  match finalized_namespaces self with
  | Some fin => fin !! prefix
  | None => None
  end.

(** A finalized registry into which a new one is merged. *)
Definition revived_registry : NamespaceInfo.t := update fresh_finalized __init__.

Definition custom_ns_dict : gmap string string :=
  {[ "http://custom.example.org/ns-1" := "custom" ]}.

(** The registry after visiting an indicator, before and after
    [_parse_collected_classes]. *)
Definition indicator_registry : NamespaceInfo.t :=
  collect __init__ (node_of Indicator_klass).

Definition indicator_parsed : NamespaceInfo.t :=
  (_parse_collected_classes indicator_registry).1.

(** The registry after visiting an entity of [custom_klass], before and
    after its [finalize]. *)
Definition custom_registry : NamespaceInfo.t :=
  collect __init__ (node_of custom_klass).

Definition custom_failed : NamespaceInfo.t :=
  (finalize example_env None None custom_registry).1.
(** * Properties *)

Ltac unfold_M :=
  unfold mbind, mret, M_bind, M_ret, NamespaceInfo.bind, NamespaceInfo.ret,
    NamespaceInfo.get, NamespaceInfo.modify, NamespaceInfo.lift,
    NamespaceInfo.raise in *.

Ltac unfold_result :=
  unfold mbind, mret, result_bind, result_ret, rbind in *.

(** ** The check-and-assign discipline *)

Section CheckAndAssign.
Implicit Types (d : gmap string string) (alias ns : string).

Lemma check_ok_inv d alias ns :
  _check_namespace_alias d alias ns = Ok tt →
  d !! alias = None ∨ d !! alias = Some ns.
Proof.
  unfold _check_namespace_alias.
  destruct (d !! alias) as [cur|]; [|by left].
  case_bool_decide; [subst; by right | done].
Qed.

Lemma check_conflict d alias ns cur :
  d !! alias = Some cur → cur ≠ ns →
  _check_namespace_alias d alias ns =
    Raise (DuplicatePrefixError (conflict_message alias ns cur)
             alias (Tuple1 cur) ns).
Proof.
  intros Hcur Hne. unfold _check_namespace_alias. rewrite Hcur.
  by rewrite bool_decide_eq_false_2.
Qed.

Lemma check_and_assign_conflict d alias ns cur :
  d !! alias = Some cur → cur ≠ ns →
  check_and_assign d alias ns =
    Raise (DuplicatePrefixError (conflict_message alias ns cur)
             alias (Tuple1 cur) ns).
Proof.
  intros Hcur Hne. unfold check_and_assign.
  by rewrite (check_conflict _ _ _ cur).
Qed.

Lemma check_and_assign_ok d alias ns d' :
  check_and_assign d alias ns = Ok d' →
  d' = <[alias := ns]> d ∧ d ⊆ d'.
Proof.
  unfold check_and_assign. unfold_result.
  destruct (_check_namespace_alias d alias ns) as [[]|e] eqn:Hchk; [|done].
  intros [= <-]. split; [done|].
  destruct (check_ok_inv _ _ _ Hchk) as [Hnone|Hsame].
  - by apply insert_subseteq.
  - by rewrite insert_id.
Qed.

(** A check-and-assign raises nothing but [DuplicatePrefixError]. *)
Lemma check_and_assign_raise d alias ns e :
  check_and_assign d alias ns = Raise e →
  ∃ cur, d !! alias = Some cur ∧ cur ≠ ns ∧
         e = DuplicatePrefixError (conflict_message alias ns cur)
               alias (Tuple1 cur) ns.
Proof.
  unfold check_and_assign, _check_namespace_alias. unfold_result.
  destruct (d !! alias) as [cur|]; [|done].
  case_bool_decide; [done|].
  intros [= <-]. by exists cur.
Qed.
End CheckAndAssign.

(** ** Loops that may raise *)

Section ForEach.
Context {A S : Type} (body : S → A → result S).

Lemma for_each_app s l1 l2 :
  for_each body s (l1 ++ l2)%list =
    (s' ← for_each body s l1; for_each body s' l2).
Proof.
  revert s. induction l1 as [|x l1 IH]; intros s; simpl; [done|].
  unfold_result. destruct (body s x); [apply IH | done].
Qed.

(** An invariant kept by every successful step holds after the loop. *)
Lemma for_each_ok_ind (P : S → S → Prop) :
  (∀ s, P s s) →
  (∀ s1 s2 s3, P s1 s2 → P s2 s3 → P s1 s3) →
  (∀ s x s', body s x = Ok s' → P s s') →
  ∀ l s s', for_each body s l = Ok s' → P s s'.
Proof.
  intros Hrefl Htrans Hstep l. induction l as [|x l IH]; intros s s'; simpl.
  - by intros [= <-].
  - unfold_result. destruct (body s x) as [s1|] eqn:Hx; [|done].
    intros Hl. eapply Htrans; [by eapply Hstep | by apply IH].
Qed.

(** The step that raises, reached after a successful run of the steps
    before it, decides the outcome of the loop. *)
Lemma for_each_raise_at s l1 x l2 s1 e :
  for_each body s l1 = Ok s1 → body s1 x = Raise e →
  for_each body s (l1 ++ x :: l2)%list = Raise e.
Proof.
  intros H1 Hx. rewrite for_each_app, H1. simpl.
  unfold_result. by rewrite Hx.
Qed.
(** A loop that raises does so at one of its elements, reached after the
    elements before it went through. *)
Lemma for_each_raise_inv l : ∀ s e,
  for_each body s l = Raise e →
  ∃ l1 x l2 s1,
    l = (l1 ++ x :: l2)%list ∧ for_each body s l1 = Ok s1 ∧ body s1 x = Raise e.
Proof.
  induction l as [|x l IH]; intros s e; simpl; [done|].
  unfold_result. destruct (body s x) as [s'|e'] eqn:Hx.
  - intros (l1 & y & l2 & s1 & -> & Hl1 & Hy)%IH.
    exists (x :: l1), y, l2, s1. split; [done|]. split; [|done].
    simpl. unfold_result. by rewrite Hx.
  - intros [= <-]. by exists [], x, l, s.
Qed.
End ForEach.

(** ** The stages of [finalize] *)

Section Stages.
Context `{IterOrder} (env : Env).
Implicit Types (d : gmap string string) (self : NamespaceInfo.t).

Lemma input_step_ok d item d' :
  input_step env d item = Ok d' → d ⊆ d'.
Proof.
  destruct item as [alias ns]. unfold input_step.
  destruct (in_DEFAULT_STIX_NAMESPACES_TUPLE env ns).
  - by intros [= <-].
  - intros Hok. by apply check_and_assign_ok in Hok as [_ ?].
Qed.

Lemma no_alias_step_ok d ns d' :
  no_alias_step env d ns = Ok d' → d ⊆ d'.
Proof.
  unfold no_alias_step.
  destruct (DEFAULT_STIX_NAMESPACES env !! ns) as [alias|]; [|done].
  intros Hok. by apply check_and_assign_ok in Hok as [_ ?].
Qed.

Lemma alias_step_ok d item d' :
  alias_step d item = Ok d' → d ⊆ d' ∧ d' !! item.1 = Some item.2.
Proof.
  destruct item as [alias ns]. unfold alias_step.
  intros Hok. apply check_and_assign_ok in Hok as [-> ?].
  split; [done|]. simpl. by rewrite lookup_insert_eq.
Qed.

Lemma for_each_subseteq {A} (body : gmap string string → A → result (gmap string string)) :
  (∀ d x d', body d x = Ok d' → d ⊆ d') →
  ∀ l d d', for_each body d l = Ok d' → d ⊆ d'.
Proof.
  intros Hstep. apply (for_each_ok_ind body (λ d d', d ⊆ d')); [done| |done].
  intros d1 d2 d3 ??. by trans d2.
Qed.

(** After a successful overlay every pair of the list is in the result. *)
Lemma for_each_alias_step_lookup l : ∀ d d',
  for_each alias_step d l = Ok d' →
  d ⊆ d' ∧ ∀ alias ns, (alias, ns) ∈ l → d' !! alias = Some ns.
Proof.
  induction l as [|item l IH]; intros d d'; simpl.
  - intros [= <-]. split; [done|]. intros ?? Hin. by apply elem_of_nil in Hin.
  - unfold_result. destruct (alias_step d item) as [d1|] eqn:Hitem; [|done].
    intros Hl. apply alias_step_ok in Hitem as [Hsub1 Hlook].
    apply IH in Hl as [Hsub2 Hrest]. split; [by trans d1|].
    intros alias ns [Heq|Hin]%elem_of_cons; [|by apply Hrest].
    subst item. by eapply lookup_weaken.
Qed.

(** [_parse_collected_classes] raises [KeyError(None)] exactly when the
    key [None] is gone, and then leaves the registry as it was. *)
Lemma parse_collected_classes_no_bucket self :
  _collected_namespaces_None self = None →
  _parse_collected_classes self = (self, Raise (KeyError None)).
Proof. intros Hnone. unfold _parse_collected_classes. unfold_M. by rewrite Hnone. Qed.

Lemma parse_collected_classes_finalized self self' res :
  _parse_collected_classes self = (self', res) →
  finalized_namespaces self' = finalized_namespaces self ∧
  finalized_schemalocs self' = finalized_schemalocs self ∧
  _input_namespaces self' = _input_namespaces self ∧
  _input_schemalocs self' = _input_schemalocs self.
Proof.
  unfold _parse_collected_classes. unfold_M.
  destruct (_collected_namespaces_None self) as [bucket|].
  - destruct (foldl _ _ _) as [b a]. by intros [= <- <-].
  - by intros [= <- <-].
Qed.

(** What [_finalize_namespaces] leaves in the registry and returns. *)
Lemma finalize_namespaces_finalized ns_dict self self' res :
  _finalize_namespaces env ns_dict self = (self', res) →
  finalized_namespaces self' = finalized_namespaces self ∧
  finalized_schemalocs self' = finalized_schemalocs self.
Proof.
  unfold _finalize_namespaces. unfold_M.
  repeat (match goal with
          | |- context [for_each ?b ?s ?l] => destruct (for_each b s l)
          end; simpl);
    by intros [= <- <-].
Qed.

Lemma finalize_namespaces_ok ns_dict self self' fin :
  _finalize_namespaces env ns_dict self = (self', Ok fin) →
  seed_namespaces env ⊆ fin ∧ _collected_namespaces_None self' = None.
Proof.
  unfold _finalize_namespaces. unfold_M.
  destruct (for_each (input_step env) _ _) as [d1|] eqn:H1; simpl; [|done].
  destruct (for_each (no_alias_step env) _ _) as [d2|] eqn:H2; simpl; [|done].
  destruct (for_each alias_step d2 _) as [d3|] eqn:H3; simpl; [|done].
  destruct (for_each alias_step _ (iteritems d3)) as [d4|] eqn:H4; simpl; [|done].
  intros [= <- <-]. split; [|done].
  apply (for_each_subseteq _ (input_step_ok)) in H1.
  apply (for_each_subseteq _ (no_alias_step_ok)) in H2.
  apply for_each_alias_step_lookup in H3 as [H3 _].
  apply for_each_alias_step_lookup in H4 as [_ H4].
  apply map_subseteq_spec. intros alias ns Hseed.
  apply H4. rewrite iteritems_perm. apply elem_of_map_to_list.
  do 3 (eapply lookup_weaken; [|eassumption]). done.
Qed.
End Stages.

Section Finalize.
Context `{IterOrder} (env : Env).
Implicit Types (self : NamespaceInfo.t) (ns_dict schemaloc_dict : option (gmap string string)).

(** Once [finalized_namespaces] is set, [_finalize_schemalocs] returns. *)
Lemma finalize_schemalocs_total schemaloc_dict self fin :
  finalized_namespaces self = Some fin →
  ∃ schemalocs warned,
    _finalize_schemalocs env schemaloc_dict self = (self, Ok (schemalocs, warned)).
Proof.
  intros Hfin. unfold _finalize_schemalocs. unfold_M. rewrite Hfin.
  destruct (foldl (schemaloc_step env) _ _) as [s w]. by exists s, w.
Qed.

(** A successful [finalize] went through its three stages. *)
Lemma finalize_ok_inv ns_dict schemaloc_dict self self' warned :
  finalize env ns_dict schemaloc_dict self = (self', Ok warned) →
  ∃ self1 self2 fin schemalocs,
    _parse_collected_classes self = (self1, Ok tt) ∧
    _finalize_namespaces env ns_dict self1 = (self2, Ok fin) ∧
    _finalize_schemalocs env schemaloc_dict (set_finalized_namespaces fin self2)
      = (set_finalized_namespaces fin self2, Ok (schemalocs, warned)) ∧
    self' = set_finalized_schemalocs schemalocs (set_finalized_namespaces fin self2).
Proof.
  unfold finalize. unfold_M.
  destruct (_parse_collected_classes self) as [self1 [[]|e1]] eqn:Hparse; [|done].
  destruct (_finalize_namespaces env ns_dict self1) as [self2 [fin|e2]] eqn:Hns; [|done].
  cbv beta iota.
  destruct (finalize_schemalocs_total schemaloc_dict
              (set_finalized_namespaces fin self2) fin eq_refl)
    as (schemalocs & w & Hsl).
  rewrite Hsl. cbv beta iota. intros [= <- <-].
  by exists self1, self2, fin, schemalocs.
Qed.

(** A [finalize] that raises did so while parsing the collected classes
    or while merging the namespaces. *)
Lemma finalize_raise_inv ns_dict schemaloc_dict self self' e :
  finalize env ns_dict schemaloc_dict self = (self', Raise e) →
  _parse_collected_classes self = (self', Raise e) ∨
  ∃ self1, _parse_collected_classes self = (self1, Ok tt) ∧
           _finalize_namespaces env ns_dict self1 = (self', Raise e).
Proof.
  unfold finalize. unfold_M.
  destruct (_parse_collected_classes self) as [self1 [[]|e1]] eqn:Hparse;
    [|intros [= <- <-]; by left].
  destruct (_finalize_namespaces env ns_dict self1) as [self2 [fin|e2]] eqn:Hns;
    [|intros [= <- <-]; right; by exists self1].
  cbv beta iota.
  destruct (finalize_schemalocs_total schemaloc_dict
              (set_finalized_namespaces fin self2) fin eq_refl)
    as (schemalocs & w & Hsl).
  by rewrite Hsl.
Qed.

(** An exception leaves both finalized maps as they were. *)
Lemma finalize_raise_finalized ns_dict schemaloc_dict self self' e :
  finalize env ns_dict schemaloc_dict self = (self', Raise e) →
  finalized_namespaces self' = finalized_namespaces self ∧
  finalized_schemalocs self' = finalized_schemalocs self.
Proof.
  intros [Hparse|(self1 & Hparse & Hns)]%finalize_raise_inv.
  - by apply parse_collected_classes_finalized in Hparse as (? & ? & _).
  - apply parse_collected_classes_finalized in Hparse as (Hp1 & Hp2 & _).
    apply finalize_namespaces_finalized in Hns as [-> ->]. done.
Qed.
End Finalize.

(** ** Registries between two calls *)

Section Collect.
Implicit Types (self : NamespaceInfo.t).

Lemma collect_preserves self entity :
  _collected_namespaces_None (collect self entity) = _collected_namespaces_None self ∧
  _collected_namespaces (collect self entity) = _collected_namespaces self ∧
  finalized_namespaces (collect self entity) = finalized_namespaces self ∧
  finalized_schemalocs (collect self entity) = finalized_schemalocs self.
Proof.
  unfold collect.
  by destruct (__input_namespaces__ entity), (__input_schemalocations__ entity).
Qed.

Lemma collect_all_preserves nodes : ∀ self,
  _collected_namespaces_None (foldl collect self nodes) = _collected_namespaces_None self ∧
  _collected_namespaces (foldl collect self nodes) = _collected_namespaces self ∧
  finalized_namespaces (foldl collect self nodes) = finalized_namespaces self ∧
  finalized_schemalocs (foldl collect self nodes) = finalized_schemalocs self.
Proof.
  induction nodes as [|entity nodes IH]; intros self; simpl; [done|].
  destruct (IH (collect self entity)) as (-> & -> & -> & ->).
  apply collect_preserves.
Qed.
End Collect.

(** ** Outcomes of [finalize] *)

Section Outcomes.
Context `{IterOrder} (env : Env).
Implicit Types (self : NamespaceInfo.t) (ns_dict schemaloc_dict : option (gmap string string)).

Lemma baseline_prefixes_dom :
  dom _BASELINE_NAMESPACES = list_to_set baseline_prefixes.
Proof. by vm_compute. Qed.

Lemma seed_namespaces_id :
  seed_namespaces env !! get_id_namespace_alias env = Some (get_id_namespace env).
Proof. unfold seed_namespaces. apply lookup_insert_eq. Qed.

Lemma seed_namespaces_baseline prefix ns :
  _BASELINE_NAMESPACES !! prefix = Some ns →
  prefix ≠ get_id_namespace_alias env →
  seed_namespaces env !! prefix = Some ns.
Proof. intros Hb Hne. unfold seed_namespaces. by rewrite lookup_insert_ne. Qed.

Lemma seed_namespaces_prefix prefix :
  prefix ∈ baseline_prefixes → is_Some (seed_namespaces env !! prefix).
Proof.
  intros Hin. unfold seed_namespaces. rewrite lookup_insert.
  case_decide; [by eexists|].
  apply elem_of_dom. rewrite baseline_prefixes_dom.
  by apply elem_of_list_to_set.
Qed.

(** A successful [finalize] publishes a namespace map that extends the
    seeded dictionary. *)
Lemma finalize_ok_seed ns_dict schemaloc_dict self self' warned :
  finalize env ns_dict schemaloc_dict self = (self', Ok warned) →
  ∃ fin, finalized_namespaces self' = Some fin ∧ seed_namespaces env ⊆ fin.
Proof.
  intros (self1 & self2 & fin & schemalocs & _ & Hns & _ & ->)%finalize_ok_inv.
  apply finalize_namespaces_ok in Hns as [Hseed _]. by exists fin.
Qed.

(** C4: whenever [finalize] succeeds, whatever the registry held (so
    after any sequence of [collect] calls) and whatever the caller's
    dictionaries, the finalized namespace map has every baseline prefix
    ([xsi], [stix], [stixCommon], [stixVocabs], [cybox], [cyboxCommon],
    [cyboxVocabs]) among its keys and binds the id prefix to the id
    namespace; a baseline prefix other than the id prefix is bound to
    its baseline namespace. *)
Theorem finalize_keeps_baseline_and_id ns_dict schemaloc_dict self self' warned :
  finalize env ns_dict schemaloc_dict self = (self', Ok warned) →
  ∃ fin,
    finalized_namespaces self' = Some fin ∧
    (∀ prefix, prefix ∈ baseline_prefixes → is_Some (fin !! prefix)) ∧
    fin !! get_id_namespace_alias env = Some (get_id_namespace env) ∧
    (∀ prefix ns, _BASELINE_NAMESPACES !! prefix = Some ns →
                  prefix ≠ get_id_namespace_alias env →
                  fin !! prefix = Some ns).
Proof.
  intros (fin & Hfn & Hseed)%finalize_ok_seed.
  exists fin. split; [done|]. split; [|split].
  - intros prefix [ns Hns]%seed_namespaces_prefix.
    exists ns. by eapply lookup_weaken.
  - eapply lookup_weaken; [apply seed_namespaces_id | done].
  - intros prefix ns Hb Hne.
    eapply lookup_weaken; [by apply seed_namespaces_baseline | done].
Qed.

(** C6: when the merge of a [finalize] call on a registry whose two
    finalized maps are still unset raises [DuplicatePrefixError], the
    call ends there, with the registry the merge left and that
    exception, and both [finalized_namespaces] and
    [finalized_schemalocs] are still [None]. *)
Theorem conflict_publishes_nothing ns_dict schemaloc_dict self self1 self2
    message prefix source_ns dest_ns :
  finalized_namespaces self = None →
  finalized_schemalocs self = None →
  _parse_collected_classes self = (self1, Ok tt) →
  _finalize_namespaces env ns_dict self1 =
    (self2, Raise (DuplicatePrefixError message prefix source_ns dest_ns)) →
  finalize env ns_dict schemaloc_dict self =
    (self2, Raise (DuplicatePrefixError message prefix source_ns dest_ns)) ∧
  finalized_namespaces self2 = None ∧
  finalized_schemalocs self2 = None.
Proof.
  intros Hfn Hfs Hparse Hns.
  assert (finalize env ns_dict schemaloc_dict self =
            (self2, Raise (DuplicatePrefixError message prefix source_ns dest_ns)))
    as Hfin.
  { unfold finalize. unfold_M. by rewrite Hparse, Hns. }
  split; [done|].
  apply finalize_raise_finalized in Hfin as [-> ->]. done.
Qed.

Lemma finalize_ok_pops_None ns_dict schemaloc_dict self self' warned :
  finalize env ns_dict schemaloc_dict self = (self', Ok warned) →
  _collected_namespaces_None self' = None.
Proof.
  intros (self1 & self2 & fin & schemalocs & _ & Hns & _ & ->)%finalize_ok_inv.
  by apply finalize_namespaces_ok in Hns as [_ ?].
Qed.

(** C7, as amended: after a successful [finalize], a second call made
    directly or after further [collect] calls only, with any arguments,
    is rejected: it raises [KeyError(None)] and leaves the registry, hence
    the two finalized maps computed by the first call, as it was.  An
    [update] between the two calls is not covered: it can bring the key
    [None] back. *)
Theorem second_finalize_rejected ns_dict schemaloc_dict self self1 warned
    nodes ns_dict' schemaloc_dict' :
  finalize env ns_dict schemaloc_dict self = (self1, Ok warned) →
  let self2 := foldl collect self1 nodes in
  finalize env ns_dict' schemaloc_dict' self2 = (self2, Raise (KeyError None)) ∧
  finalized_namespaces self2 = finalized_namespaces self1 ∧
  finalized_schemalocs self2 = finalized_schemalocs self1 ∧
  is_Some (finalized_namespaces self1) ∧
  is_Some (finalized_schemalocs self1).
Proof.
  intros Hfin self2.
  pose proof (finalize_ok_pops_None _ _ _ _ _ Hfin) as Hnone.
  destruct (collect_all_preserves nodes self1) as (Hb & _ & Hfn & Hfs).
  fold self2 in Hb, Hfn, Hfs. rewrite Hnone in Hb.
  split; [|split; [done|split; [done|]]].
  - unfold finalize. unfold_M.
    by rewrite (parse_collected_classes_no_bucket self2 Hb).
  - apply finalize_ok_inv in Hfin
      as (s1 & s2 & fin & schemalocs & _ & _ & _ & ->).
    split; by eexists.
Qed.
End Outcomes.

(** ** Prefix conflicts *)

Section Conflicts.
Context `{IterOrder} (env : Env).
Implicit Types (self : NamespaceInfo.t) (ns_dict schemaloc_dict : option (gmap string string)).

Lemma reaches_raise {A S} (body : S → A → result S) s0 l s x e :
  reaches body s0 l s x → body s x = Raise e → for_each body s0 l = Raise e.
Proof.
  intros (l1 & l2 & -> & Hl1) Hx. by eapply for_each_raise_at.
Qed.

(** [_finalize_namespaces] by stages. *)
Lemma finalize_namespaces_stages ns_dict self :
  _finalize_namespaces env ns_dict self =
    match after_input env self with
    | Raise e => (set_input_namespaces (fixed_input env self) self, Raise e)
    | Ok d1 =>
        (set_collected None (_collected_namespaces self)
           (set_input_namespaces (fixed_input env self) self),
         d2 ← for_each (no_alias_step env) d1 (unaliased self);
         d3 ← for_each alias_step d2 (iteritems (_collected_namespaces self));
         for_each alias_step (caller_base ns_dict) (iteritems d3))
    end.
Proof.
  unfold _finalize_namespaces, after_input, fixed_input, unaliased, caller_base.
  unfold_M. unfold_result.
  destruct (for_each (input_step env) _ _) as [d1|]; cbv beta iota; [|done].
  destruct (for_each (no_alias_step env) _ _) as [d2|]; cbv beta iota; [|done].
  destruct (for_each alias_step d2 _) as [d3|]; cbv beta iota; [|done].
  by destruct (for_each alias_step _ (iteritems d3)).
Qed.

(** A conflict at one of the checked writes makes [_finalize_namespaces]
    raise the [DuplicatePrefixError] of that write. *)
Lemma checked_conflict_raises ns_dict self step d prefix ns cur :
  binds env ns_dict self step d prefix ns →
  step ≠ Seeding →
  d !! prefix = Some cur → cur ≠ ns →
  ∃ self',
    _finalize_namespaces env ns_dict self =
      (self', Raise (DuplicatePrefixError (conflict_message prefix ns cur)
                       prefix (Tuple1 cur) ns)).
Proof.
  intros Hbinds Hstep Hcur Hne.
  pose proof (check_and_assign_conflict d prefix ns cur Hcur Hne) as Hraise.
  rewrite finalize_namespaces_stages.
  destruct Hbinds as [|d alias ns Hreach Hwk|d1 d alias ns H1 Hreach Hdef
                      |d1 d2 d alias ns H1 H2 Hreach
                      |d1 d2 d3 d alias ns H1 H2 H3 Hreach]; [done|..].
  - eexists. unfold after_input.
    erewrite (reaches_raise (input_step env)); [done|done|].
    unfold input_step. by rewrite Hwk.
  - eexists. rewrite H1.
    erewrite (reaches_raise (no_alias_step env)); [done|done|].
    unfold no_alias_step. by rewrite Hdef.
  - eexists. rewrite H1, H2. unfold_result.
    by erewrite (reaches_raise alias_step).
  - eexists. rewrite H1, H2. unfold_result. rewrite H3.
    by erewrite (reaches_raise alias_step).
Qed.

(** The other way round: a [DuplicatePrefixError] that leaves
    [_finalize_namespaces] was raised at one of the checked writes, for a
    prefix bound to another namespace at that moment. *)
Lemma conflict_raised_at_checked_write ns_dict self self' message prefix source_ns dest_ns :
  _finalize_namespaces env ns_dict self =
    (self', Raise (DuplicatePrefixError message prefix source_ns dest_ns)) →
  ∃ step d cur,
    step ≠ Seeding ∧
    binds env ns_dict self step d prefix dest_ns ∧
    d !! prefix = Some cur ∧ cur ≠ dest_ns ∧
    source_ns = Tuple1 cur ∧
    message = conflict_message prefix dest_ns cur.
Proof.
  rewrite finalize_namespaces_stages.
  destruct (after_input env self) as [d1|e1] eqn:H1.
  - unfold_result.
    destruct (for_each (no_alias_step env) d1 _) as [d2|e2] eqn:H2.
    + destruct (for_each alias_step d2 _) as [d3|e3] eqn:H3.
      * intros [= _ Hraise].
        apply for_each_raise_inv in Hraise
          as (l1 & [alias ns] & l2 & d & Hl & Hl1 & Hstep).
        apply check_and_assign_raise in Hstep as (cur & Hcur & Hne & [= -> -> -> ->]).
        exists Overlay, d, cur. repeat split; try done.
        eapply binds_overlay; [done..|]. by exists l1, l2.
      * intros [= _ ->].
        apply for_each_raise_inv in H3
          as (l1 & [alias ns] & l2 & d & Hl & Hl1 & Hstep).
        apply check_and_assign_raise in Hstep as (cur & Hcur & Hne & [= -> -> -> ->]).
        exists FromCollected, d, cur. repeat split; try done.
        eapply binds_collected; [done..|]. by exists l1, l2.
    + intros [= _ ->].
      apply for_each_raise_inv in H2 as (l1 & ns & l2 & d & Hl & Hl1 & Hstep).
      unfold no_alias_step in Hstep.
      destruct (DEFAULT_STIX_NAMESPACES env !! ns) as [alias|] eqn:Hdef; [|done].
      apply check_and_assign_raise in Hstep as (cur & Hcur & Hne & [= -> -> -> ->]).
      exists FromUnaliased, d, cur. repeat split; try done.
      eapply binds_unaliased; [done| |done]. by exists l1, l2.
  - intros [= _ ->]. unfold after_input in H1.
    apply for_each_raise_inv in H1
      as (l1 & [alias ns] & l2 & d & Hl & Hl1 & Hstep).
    unfold input_step in Hstep.
    destruct (in_DEFAULT_STIX_NAMESPACES_TUPLE env ns) eqn:Hwk; [done|].
    apply check_and_assign_raise in Hstep as (cur & Hcur & Hne & [= -> -> -> ->]).
    exists FromInput, d, cur. repeat split; try done.
    apply binds_input; [|done]. by exists l1, l2.
Qed.

(** [_parse_collected_classes] raises nothing but [KeyError(None)]. *)
Lemma parse_collected_classes_raise self self' e :
  _parse_collected_classes self = (self', Raise e) → e = KeyError None.
Proof.
  unfold _parse_collected_classes. unfold_M.
  destruct (_collected_namespaces_None self).
  - by destruct (foldl _ _ _).
  - by intros [= _ <-].
Qed.

Lemma finalize_conflict_at_checked_write ns_dict schemaloc_dict self self'
    message prefix source_ns dest_ns :
  finalize env ns_dict schemaloc_dict self =
    (self', Raise (DuplicatePrefixError message prefix source_ns dest_ns)) →
  ∃ self1 step d cur,
    _parse_collected_classes self = (self1, Ok tt) ∧
    step ≠ Seeding ∧
    binds env ns_dict self1 step d prefix dest_ns ∧
    d !! prefix = Some cur ∧ cur ≠ dest_ns ∧
    source_ns = Tuple1 cur ∧
    message = conflict_message prefix dest_ns cur.
Proof.
  intros [Hparse|(self1 & Hparse & Hns)]%finalize_raise_inv.
  - by apply parse_collected_classes_raise in Hparse.
  - apply conflict_raised_at_checked_write in Hns
      as (step & d & cur & ? & ? & ? & ? & ? & ?).
    by exists self1, step, d, cur.
Qed.

(** C1, as amended: when [finalize] has parsed the collected classes and
    one of the four checked loops of the merge -- parsed-input pairs
    outside the well-known namespaces, namespaces of the unaliased
    bucket under their default prefix, collected pairs, or the final
    overlay onto the caller's dictionary -- comes to write a prefix that
    the dictionary already binds to another namespace, [finalize] fails
    with a [DuplicatePrefixError] that reaches the caller and carries the
    prefix, the namespace already bound (as a one-element tuple) and the
    new namespace.  The assignment of the id namespace over the baseline
    is not among the checked writes. *)
Theorem checked_conflict_is_fatal ns_dict schemaloc_dict self self1
    step d prefix ns cur :
  _parse_collected_classes self = (self1, Ok tt) →
  binds env ns_dict self1 step d prefix ns →
  step ≠ Seeding →
  d !! prefix = Some cur → cur ≠ ns →
  ∃ self',
    finalize env ns_dict schemaloc_dict self =
      (self', Raise (DuplicatePrefixError (conflict_message prefix ns cur)
                       prefix (Tuple1 cur) ns)).
Proof.
  intros Hparse Hbinds Hstep Hcur Hne.
  destruct (checked_conflict_raises _ _ _ _ _ _ _ Hbinds Hstep Hcur Hne)
    as [self' Hns].
  exists self'. unfold finalize. unfold_M. by rewrite Hparse, Hns.
Qed.
End Conflicts.

Section ConflictExamples.
(** A parsed document that binds [stix] to a namespace of its own. *)
Example stix_clash_registry_parses :
  _parse_collected_classes stix_clash_registry = (stix_clash_registry, Ok tt).
Proof. by vm_compute. Qed.

Lemma checked_conflict_is_fatal_witness :
  ∃ self',
    finalize example_env None None stix_clash_registry
    = (self',
       Raise (DuplicatePrefixError
                (conflict_message "stix" "http://example.org/other"
                   "http://stix.mitre.org/stix-1")
                "stix" (Tuple1 "http://stix.mitre.org/stix-1")
                "http://example.org/other")).
Proof.
  apply (checked_conflict_is_fatal example_env None None
           stix_clash_registry stix_clash_registry
           FromInput (seed_namespaces example_env)).
  - by vm_compute.
  - apply binds_input; [|by vm_compute].
    exists [], []. split; by vm_compute.
  - discriminate.
  - by vm_compute.
  - discriminate.
Defined.

(** The caller binds [x] to one namespace and a collected class binds it
    to another: the overlay onto the caller's dictionary raises. *)
Example caller_and_class_conflict :
  (finalize example_env (Some {[ "http://a.example.org/ns" := "x" ]}) None
     (collect __init__
        (node_of {| klass_name := "X"; is_entity := true;
                    _namespace := Some "http://b.example.org/ns";
                    _XSI_NS := Some "x"; _XSI_TYPE := None |}))).2
  = Raise (DuplicatePrefixError
             (conflict_message "x" "http://b.example.org/ns" "http://a.example.org/ns")
             "x" (Tuple1 "http://a.example.org/ns") "http://b.example.org/ns").
Proof. by vm_compute. Qed.

(** The caller's dictionary, keyed by namespace, gives two namespaces the
    prefix [x]: turning it round keeps one of them, without a check. *)
Example caller_duplicate_prefix_is_not_detected :
  ∃ warned fin,
    (finalize example_env
       (Some {[ "http://a.example.org/ns" := "x"; "http://b.example.org/ns" := "x" ]})
       None __init__).2 = Ok warned ∧
    finalized_namespaces
      (finalize example_env
         (Some {[ "http://a.example.org/ns" := "x"; "http://b.example.org/ns" := "x" ]})
         None __init__).1 = Some fin ∧
    is_Some (fin !! "x").
Proof.
  eexists _, _. split; [vm_compute; reflexivity|].
  split; [reflexivity|]. vm_compute. by eexists.
Qed.

Example example_env_loads :
  module_loads example_env = true ∧ module_loads stix_id_env = true.
Proof. by vm_compute. Qed.

(** C1, as stated, fails at the seeding of the id namespace: with the id
    prefix [stix] bound to another namespace than the baseline's, the
    merge writes [stix] over its baseline binding, and [finalize]
    succeeds with the id namespace under [stix]. *)
Lemma seeding_conflict_is_not_fatal :
  _parse_collected_classes __init__ = (__init__, Ok tt) ∧
  binds stix_id_env None __init__ Seeding
    _BASELINE_NAMESPACES "stix" "http://example.com" ∧
  _BASELINE_NAMESPACES !! "stix" = Some "http://stix.mitre.org/stix-1" ∧
  "http://stix.mitre.org/stix-1" ≠ "http://example.com" ∧
  ∃ self' warned fin,
    finalize stix_id_env None None __init__ = (self', Ok warned) ∧
    finalized_namespaces self' = Some fin ∧
    fin !! "stix" = Some "http://example.com".
Proof.
  split; [by vm_compute|]. split; [apply (binds_seeding stix_id_env)|].
  split; [by vm_compute|]. split; [discriminate|].
  eexists _, _, _. split; [|split].
  - vm_compute. reflexivity.
  - reflexivity.
  - by vm_compute.
Qed.
End ConflictExamples.

(** ** Runs without conflicts *)

Section Success.
Context `{IterOrder} (env : Env).

Lemma iteritems_empty {V} : iteritems (∅ : gmap string V) = [].
Proof.
  apply Permutation_nil_r. by rewrite iteritems_perm, map_to_list_empty.
Qed.

Lemma iterset_empty {A} `{Countable A} : iterset (∅ : gset A) = [].
Proof.
  apply Permutation_nil_r. by rewrite iterset_perm, elements_empty.
Qed.

Lemma iterset_singleton {A} `{Countable A} (x : A) : iterset ({[x]} : gset A) = [x].
Proof.
  apply Permutation_singleton_r. by rewrite iterset_perm, elements_singleton.
Qed.

Lemma iteritems_NoDup_fst {V} (m : gmap string V) : NoDup (iteritems m).*1.
Proof. rewrite iteritems_perm. apply NoDup_fst_map_to_list. Qed.

Lemma list_to_map_iteritems {V} (m : gmap string V) :
  list_to_map (iteritems m) = m.
Proof.
  rewrite <-(list_to_map_to_list m) at 2.
  apply list_to_map_proper; [apply iteritems_NoDup_fst | apply iteritems_perm].
Qed.

(** Pairs with distinct prefixes, none of them bound yet, are all
    assigned. *)
Lemma for_each_alias_step_fresh l : ∀ d,
  NoDup l.*1 → (∀ alias, alias ∈ l.*1 → d !! alias = None) →
  for_each alias_step d l = Ok (list_to_map l ∪ d).
Proof.
  induction l as [|[alias ns] l IH]; intros d Hnodup Hfresh; simpl.
  - by rewrite (left_id_L ∅ (∪)).
  - apply NoDup_cons in Hnodup as [Hnotin Hnodup].
    unfold check_and_assign, _check_namespace_alias. unfold_result.
    rewrite (Hfresh alias) by (simpl; left). rewrite IH; [|done|].
    + f_equal. rewrite <-insert_union_r, insert_union_l; [done|].
      by apply not_elem_of_list_to_map_1.
    + intros alias' Hin. rewrite lookup_insert_ne by (intros ->; done).
      apply Hfresh. simpl. by right.
Qed.

Lemma overlay_on_empty (d : gmap string string) :
  for_each alias_step ∅ (iteritems d) = Ok d.
Proof.
  rewrite for_each_alias_step_fresh.
  - by rewrite (right_id_L ∅ (∪)), list_to_map_iteritems.
  - apply iteritems_NoDup_fst.
  - intros. apply lookup_empty.
Qed.

Lemma fix_example_namespace_empty (d : gmap string string) :
  _fix_example_namespace d ∅ = ∅.
Proof.
  unfold _fix_example_namespace; simpl.
  rewrite lookup_empty. by rewrite bool_decide_eq_false_2.
Qed.

(** When no key of the finalized namespaces is in the default table, the
    second loop of [_finalize_schemalocs] leaves the dictionary alone. *)
Lemma schemaloc_step_no_default keys : ∀ acc,
  (∀ key, key ∈ keys → DEFAULT_STIX_SCHEMALOCATIONS env !! key = None) →
  (foldl (schemaloc_step env) acc keys).1 = acc.1.
Proof.
  induction keys as [|k keys IH]; intros acc Hnone; simpl; [done|].
  rewrite IH by (intros; apply Hnone; by right).
  destruct acc as [sd w]. unfold schemaloc_step.
  rewrite (Hnone k) by by left. by repeat case_match.
Qed.

(** A fresh registry finalizes to the seeded dictionary. *)
Lemma finalize_fresh schemaloc_dict :
  finalize env None schemaloc_dict __init__ =
    let merged := set_collected None ∅ (set_input_namespaces ∅ __init__) in
    let located :=
      foldl (schemaloc_step env)
        (if dict_truthy schemaloc_dict then default ∅ schemaloc_dict else ∅, [])
        (iterkeys (seed_namespaces env)) in
    (set_finalized_schemalocs located.1
       (set_finalized_namespaces (seed_namespaces env) merged),
     Ok located.2).
Proof.
  assert (_parse_collected_classes __init__ = (__init__, Ok tt)) as Hparse.
  { unfold _parse_collected_classes. unfold_M. simpl.
    by rewrite iterset_empty. }
  assert (_finalize_namespaces env None __init__
          = (set_collected None ∅ (set_input_namespaces ∅ __init__),
             Ok (seed_namespaces env))) as Hns.
  { rewrite finalize_namespaces_stages.
    unfold after_input, fixed_input, unaliased, caller_base. simpl.
    rewrite fix_example_namespace_empty, iteritems_empty. simpl.
    rewrite iterset_empty. simpl.
    unfold_result. by rewrite overlay_on_empty. }
  unfold finalize. unfold_M. rewrite Hparse, Hns. cbv beta iota zeta.
  unfold _finalize_schemalocs. unfold_M. simpl.
  rewrite iteritems_empty. simpl.
  by destruct (foldl (schemaloc_step env) _ _).
Qed.

(** C10: when the id prefix is a baseline prefix and the id namespace is
    not the namespace the baseline gives that prefix, the seeding binds
    the prefix to the id namespace, in place of the baseline's, and raises
    nothing: a fresh registry finalizes without an exception, every
    [finalize] that succeeds publishes the id namespace under that
    prefix, and a [DuplicatePrefixError] that a [finalize] does raise
    comes from one of the checked writes after the seeding. *)
Theorem id_prefix_replaces_baseline prefix ns :
  get_id_namespace_alias env = prefix →
  _BASELINE_NAMESPACES !! prefix = Some ns →
  get_id_namespace env ≠ ns →
  seed_namespaces env !! prefix = Some (get_id_namespace env) ∧
  seed_namespaces env !! prefix ≠ _BASELINE_NAMESPACES !! prefix ∧
  (∃ self' warned fin,
     finalize env None None __init__ = (self', Ok warned) ∧
     finalized_namespaces self' = Some fin ∧
     fin !! prefix = Some (get_id_namespace env)) ∧
  (∀ ns_dict schemaloc_dict self self' warned,
     finalize env ns_dict schemaloc_dict self = (self', Ok warned) →
     ∃ fin, finalized_namespaces self' = Some fin ∧
            fin !! prefix = Some (get_id_namespace env)) ∧
  (∀ ns_dict schemaloc_dict self self' message prefix' source_ns dest_ns,
     finalize env ns_dict schemaloc_dict self =
       (self', Raise (DuplicatePrefixError message prefix' source_ns dest_ns)) →
     ∃ self1 step d cur,
       _parse_collected_classes self = (self1, Ok tt) ∧
       step ≠ Seeding ∧
       binds env ns_dict self1 step d prefix' dest_ns ∧
       d !! prefix' = Some cur ∧ cur ≠ dest_ns ∧ source_ns = Tuple1 cur).
Proof.
  intros <- Hbase Hne.
  pose proof (seed_namespaces_id env) as Hseed.
  split; [done|]. split; [rewrite Hseed, Hbase; congruence|].
  split; [|split].
  - eexists _, _, (seed_namespaces env).
    split; [apply finalize_fresh | by split].
  - intros ns_dict schemaloc_dict self self' warned Hfin.
    apply finalize_ok_seed in Hfin as (fin & Hfn & Hsub).
    exists fin. split; [done|]. by eapply lookup_weaken.
  - intros ns_dict schemaloc_dict self self' message prefix' source_ns dest_ns Hfin.
    apply finalize_conflict_at_checked_write in Hfin
      as (self1 & step & d & cur & ? & ? & ? & ? & ? & ? & _).
    by exists self1, step, d, cur.
Qed.
End Success.

(** ** Namespaces without a prefix *)

Section Unaliased.
Context `{IterOrder} (env : Env).

Lemma collect_node_of klass :
  collect __init__ (node_of klass) = set_collected_classes {[klass]} __init__.
Proof.
  unfold collect, node_of; simpl. f_equal.
  by rewrite (left_id_L ∅ (∪)), (right_id_L ∅ (∪)).
Qed.

(** A class with a namespace, no [_XSI_NS] and no [_XSI_TYPE] of the
    form [prefix:name] goes to the bucket under [None]. *)
Lemma parse_class_no_alias klass ns bucket collected :
  _namespace klass = Some ns → ns ≠ "" →
  truthy (_XSI_NS klass) = false →
  truthy (_XSI_TYPE klass) = false
  ∨ List.length (split_colon (default "" (_XSI_TYPE klass))) ≠ 2 →
  parse_class (bucket, collected) klass = ({[ns]} ∪ bucket, collected).
Proof.
  intros Hns Hne Halias Htype. unfold parse_class. rewrite Hns, Halias. simpl.
  apply String.eqb_neq in Hne. rewrite Hne. simpl.
  destruct Htype as [->|Hlen]; simpl; [done|].
  destruct (truthy (_XSI_TYPE klass)); simpl; [|done].
  by destruct (split_colon _) as [|? [|? [|? ?]]].
Qed.

(** C9: a registry that collected one entity class with a namespace, no
    explicit prefix and no two-part [_XSI_TYPE], the namespace being
    absent from [DEFAULT_STIX_NAMESPACES], does not finalize: the
    unguarded [DEFAULT_STIX_NAMESPACES[ns]] raises [KeyError(ns)], which
    leaves [finalize] as it is, not as a [DuplicatePrefixError]. *)
Theorem unaliased_namespace_without_default klass ns ns_dict schemaloc_dict :
  is_entity klass = true →
  _namespace klass = Some ns → ns ≠ "" →
  truthy (_XSI_NS klass) = false →
  truthy (_XSI_TYPE klass) = false
  ∨ List.length (split_colon (default "" (_XSI_TYPE klass))) ≠ 2 →
  DEFAULT_STIX_NAMESPACES env !! ns = None →
  ∃ self',
    finalize env ns_dict schemaloc_dict (collect __init__ (node_of klass))
    = (self', Raise (KeyError (Some ns))).
Proof.
  intros Hent Hns Hne Halias Htype Hdef.
  rewrite collect_node_of.
  set (self := set_collected_classes {[klass]} __init__).
  assert (_parse_collected_classes self
          = (set_collected (Some {[ns]}) ∅ self, Ok tt)) as Hparse.
  { unfold _parse_collected_classes. unfold_M. simpl.
    rewrite iterset_singleton, filter_cons_True, filter_nil by done. cbn [foldl].
    rewrite (parse_class_no_alias klass ns) by done.
    by rewrite (right_id_L ∅ (∪)). }
  eexists. unfold finalize. unfold_M. rewrite Hparse.
  rewrite finalize_namespaces_stages.
  unfold after_input, fixed_input, unaliased. simpl.
  rewrite fix_example_namespace_empty, iteritems_empty. simpl.
  rewrite iterset_singleton. simpl.
  unfold no_alias_step at 1. rewrite Hdef. reflexivity.
Qed.
End Unaliased.

(** ** The theorems at concrete registries *)

Section Witnesses.
Example fresh_finalize_succeeds :
  finalize example_env None None __init__ = (fresh_finalized, Ok fresh_warnings).
Proof. by vm_compute. Qed.

Lemma finalize_keeps_baseline_and_id_witness :
  ∃ fin,
    finalized_namespaces fresh_finalized = Some fin ∧
    (∀ prefix, prefix ∈ baseline_prefixes → is_Some (fin !! prefix)) ∧
    fin !! "example" = Some "http://example.com" ∧
    (∀ prefix ns, _BASELINE_NAMESPACES !! prefix = Some ns →
                  prefix ≠ "example" → fin !! prefix = Some ns).
Proof.
  apply (finalize_keeps_baseline_and_id example_env None None
           __init__ fresh_finalized fresh_warnings).
  by vm_compute.
Defined.

Lemma conflict_publishes_nothing_witness :
  finalize example_env None None stix_clash_registry =
    (stix_clash_after_merge,
     Raise (DuplicatePrefixError
              (conflict_message "stix" "http://example.org/other"
                 "http://stix.mitre.org/stix-1")
              "stix" (Tuple1 "http://stix.mitre.org/stix-1")
              "http://example.org/other")) ∧
  finalized_namespaces stix_clash_after_merge = None ∧
  finalized_schemalocs stix_clash_after_merge = None.
Proof.
  apply (conflict_publishes_nothing example_env None None
           stix_clash_registry stix_clash_registry stix_clash_after_merge).
  - reflexivity.
  - reflexivity.
  - by vm_compute.
  - by vm_compute.
Defined.

Lemma second_finalize_rejected_witness :
  let self2 := foldl collect fresh_finalized [node_of custom_klass] in
  finalize example_env
    (Some {[ "http://custom.example.org/ns-1" := "custom" ]}) None self2
    = (self2, Raise (KeyError None)) ∧
  finalized_namespaces self2 = finalized_namespaces fresh_finalized ∧
  finalized_schemalocs self2 = finalized_schemalocs fresh_finalized ∧
  is_Some (finalized_namespaces fresh_finalized) ∧
  is_Some (finalized_schemalocs fresh_finalized).
Proof.
  apply (second_finalize_rejected example_env None None
           __init__ fresh_finalized fresh_warnings).
  by vm_compute.
Defined.

(** C7, as stated, fails when another registry is merged in between: the
    first [finalize] succeeds and removes the key [None]; [update] with a
    new registry puts it back; the second [finalize] is then neither
    rejected nor without effect -- it succeeds and publishes a namespace
    map with the caller's prefix [custom], which the first map did not
    have. *)
Lemma update_revives_finalize :
  (∃ warned, (finalize example_env None None __init__).2 = Ok warned) ∧
  finalized_prefix fresh_finalized "custom" = None ∧
  _collected_namespaces_None fresh_finalized = None ∧
  _collected_namespaces_None revived_registry = Some ∅ ∧
  (∃ warned,
     (finalize example_env (Some custom_ns_dict) None revived_registry).2
     = Ok warned) ∧
  finalized_prefix
    (finalize example_env (Some custom_ns_dict) None revived_registry).1 "custom"
  = Some "http://custom.example.org/ns-1".
Proof.
  split; [eexists; vm_compute; reflexivity|].
  split; [vm_compute; reflexivity|].
  split; [vm_compute; reflexivity|].
  split; [vm_compute; reflexivity|].
  split; [eexists; vm_compute; reflexivity|].
  vm_compute; reflexivity.
Qed.

Lemma unaliased_namespace_without_default_witness :
  ∃ self',
    finalize example_env None None (collect __init__ (node_of custom_klass))
    = (self', Raise (KeyError (Some "http://custom.example.org/ns-1"))).
Proof.
  apply (unaliased_namespace_without_default example_env custom_klass).
  - reflexivity.
  - reflexivity.
  - discriminate.
  - reflexivity.
  - left. reflexivity.
  - by vm_compute.
Defined.

Lemma id_prefix_replaces_baseline_witness :
  seed_namespaces stix_id_env !! "stix" = Some "http://example.com" ∧
  seed_namespaces stix_id_env !! "stix" ≠ _BASELINE_NAMESPACES !! "stix" ∧
  (∃ self' warned fin,
     finalize stix_id_env None None __init__ = (self', Ok warned) ∧
     finalized_namespaces self' = Some fin ∧
     fin !! "stix" = Some "http://example.com") ∧
  (∀ ns_dict schemaloc_dict self self' warned,
     finalize stix_id_env ns_dict schemaloc_dict self = (self', Ok warned) →
     ∃ fin, finalized_namespaces self' = Some fin ∧
            fin !! "stix" = Some "http://example.com") ∧
  (∀ ns_dict schemaloc_dict self self' message prefix' source_ns dest_ns,
     finalize stix_id_env ns_dict schemaloc_dict self =
       (self', Raise (DuplicatePrefixError message prefix' source_ns dest_ns)) →
     ∃ self1 step d cur,
       _parse_collected_classes self = (self1, Ok tt) ∧
       step ≠ Seeding ∧
       binds stix_id_env ns_dict self1 step d prefix' dest_ns ∧
       d !! prefix' = Some cur ∧ cur ≠ dest_ns ∧ source_ns = Tuple1 cur).
Proof.
  apply (id_prefix_replaces_baseline stix_id_env "stix"
           "http://stix.mitre.org/stix-1").
  - reflexivity.
  - by vm_compute.
  - discriminate.
Defined.
End Witnesses.

(** ** The example namespace with a trailing slash *)

Section ExampleNamespace.
Context `{IterOrder} (env : Env).

(** [_fix_example_namespace] looks the namespace ['http://example.com']
    up among the keys of [d_ns], which are prefixes: unless the id
    prefix is that very string, it removes nothing. *)
Lemma fix_example_namespace_idle input_namespaces :
  get_id_namespace_alias env ≠ api_ns →
  _fix_example_namespace (seed_namespaces env) input_namespaces = input_namespaces.
Proof.
  intros Hne. unfold _fix_example_namespace, seed_namespaces; simpl.
  rewrite lookup_insert_ne by done.
  rewrite (bool_decide_eq_false_2 (_BASELINE_NAMESPACES !! api_ns = _)) by by vm_compute.
  by rewrite andb_false_r.
Qed.
Lemma iteritems_singleton {V} (k : string) (v : V) :
  iteritems ({[k := v]} : gmap string V) = [(k, v)].
Proof.
  apply Permutation_singleton_r. by rewrite iteritems_perm, map_to_list_singleton.
Qed.

Lemma collect_parsed_node input_namespaces :
  collect __init__ (parsed_node input_namespaces)
  = set_input_namespaces input_namespaces __init__.
Proof.
  unfold collect, parsed_node, set_input_namespaces, set_collected_classes,
    dict_update; simpl.
  f_equal; by rewrite ?(right_id_L ∅ (∪)), ?(left_id_L ∅ (∪)).
Qed.

(** Whatever the namespace lists of cybox and maec, as long as they do not
    declare ['http://example.com/'] themselves: with the id namespace
    ['http://example.com'] under [example], a parsed declaration of
    ['http://example.com/'] under [example] makes [finalize] raise. *)
Lemma slash_entry_raises ns_dict schemaloc_dict :
  get_id_namespace_alias env = example_prefix →
  get_id_namespace env = api_ns →
  in_DEFAULT_STIX_NAMESPACES_TUPLE env sample_ns = false →
  ∃ self',
    finalize env ns_dict schemaloc_dict slash_registry =
      (self', Raise (DuplicatePrefixError
                       (conflict_message example_prefix sample_ns api_ns)
                       example_prefix (Tuple1 api_ns) sample_ns)).
Proof.
  intros Halias Hid Hwk. unfold slash_registry. rewrite collect_parsed_node.
  set (self := set_input_namespaces _ __init__).
  assert (_parse_collected_classes self = (self, Ok tt)) as Hparse.
  { unfold _parse_collected_classes. unfold_M. simpl.
    by rewrite iterset_empty. }
  destruct (checked_conflict_raises env ns_dict self FromInput
              (seed_namespaces env) example_prefix sample_ns api_ns)
    as [self' Hns].
  - apply binds_input; [|done]. exists [], []. split; [|done].
    unfold fixed_input. rewrite fix_example_namespace_idle
      by (rewrite Halias; discriminate).
    apply iteritems_singleton.
  - discriminate.
  - rewrite <-Halias, <-Hid. apply seed_namespaces_id.
  - discriminate.
  - exists self'. unfold finalize. unfold_M. by rewrite Hparse, Hns.
Qed.
End ExampleNamespace.

(** C3 at a concrete registry: the id namespace is ['http://example.com']
    under the prefix [example], and the parsed document declares
    ['http://example.com/'] under [example].  The entry with the slash is
    not dropped: it reaches the merge, which raises
    [DuplicatePrefixError], and no finalized map exists.  Were the parsed
    declarations keyed by namespace, as the fix reads them, the entry
    would not be dropped either: it ends up in the finalized map. *)
Lemma slash_entry_is_not_dropped :
  _input_namespaces slash_registry !! "example" = Some "http://example.com/" ∧
  seed_namespaces example_env !! "example" = Some "http://example.com" ∧
  (finalize example_env None None slash_registry).2 =
    Raise (DuplicatePrefixError
             (conflict_message "example" "http://example.com/" "http://example.com")
             "example" (Tuple1 "http://example.com") "http://example.com/") ∧
  _input_namespaces (finalize example_env None None slash_registry).1
    !! "example" = Some "http://example.com/" ∧
  finalized_namespaces (finalize example_env None None slash_registry).1 = None ∧
  (∃ fin,
     finalized_namespaces (finalize example_env None None slash_registry_by_ns).1
       = Some fin ∧
     fin !! "http://example.com/" = Some "example").
Proof.
  repeat split; try by vm_compute.
  eexists. split; [reflexivity | by vm_compute].
Qed.

(** ** Schema locations *)

Section SchemaLocations.
Context `{IterOrder} (env : Env).

(** What the second loop of [_finalize_schemalocs] does with the
    defaults: a key of [finalized_namespaces] that is also a key of
    [DEFAULT_STIX_SCHEMALOCATIONS] gets the default location. *)
Lemma schemaloc_step_default keys : ∀ acc key loc,
  DEFAULT_STIX_SCHEMALOCATIONS env !! key = Some loc →
  key ∈ keys ∨ acc.1 !! key = Some loc →
  (foldl (schemaloc_step env) acc keys).1 !! key = Some loc.
Proof.
  induction keys as [|k keys IH]; intros acc key loc Hdef Hin; simpl.
  - destruct Hin as [Hin|Hin]; [by apply elem_of_nil in Hin | done].
  - apply IH; [done|].
    destruct (decide (key ∈ keys)) as [|Hnotin]; [by left | right].
    destruct acc as [sd w]. unfold schemaloc_step.
    destruct (decide (k = key)) as [->|Hk].
    + rewrite Hdef. simpl. by rewrite lookup_insert_eq.
    + assert (sd !! key = Some loc) as Hsd.
      { destruct Hin as [[?|?]%elem_of_cons|?]; [congruence | done | done]. }
      destruct (DEFAULT_STIX_SCHEMALOCATIONS env !! k); simpl.
      * by rewrite lookup_insert_ne.
      * by repeat case_match.
Qed.

Lemma finalized_schemalocs_default_by_key ns_dict schemaloc_dict self self' warned :
  finalize env ns_dict schemaloc_dict self = (self', Ok warned) →
  ∃ fin schemalocs,
    finalized_namespaces self' = Some fin ∧
    finalized_schemalocs self' = Some schemalocs ∧
    ∀ key loc, is_Some (fin !! key) →
               DEFAULT_STIX_SCHEMALOCATIONS env !! key = Some loc →
               schemalocs !! key = Some loc.
Proof.
  intros (self1 & self2 & fin & schemalocs & _ & _ & Hsl & ->)%finalize_ok_inv.
  exists fin, schemalocs. split; [done|]. split; [done|].
  intros key loc [ns Hkey] Hdef.
  unfold _finalize_schemalocs in Hsl. unfold_M. simpl in Hsl.
  injection Hsl as Hsl.
  match type of Hsl with ?f = _ => replace schemalocs with (f.1) by by rewrite Hsl end.
  apply schemaloc_step_default; [done|]. left.
  unfold iterkeys. apply list_elem_of_fmap. exists (key, ns). split; [done|].
  rewrite iteritems_perm. by apply elem_of_map_to_list.
Qed.
(** Whatever the namespace lists of cybox and maec, as long as no prefix
    of the seeded dictionary is a key of the default table: a fresh
    registry finalizes to the caller's schema locations, untouched. *)
Lemma caller_schemalocs_untouched (schemaloc_dict : gmap string string) :
  schemaloc_dict ≠ ∅ →
  (∀ prefix, is_Some (seed_namespaces env !! prefix) →
             DEFAULT_STIX_SCHEMALOCATIONS env !! prefix = None) →
  ∃ self' warned,
    finalize env None (Some schemaloc_dict) __init__ = (self', Ok warned) ∧
    finalized_namespaces self' = Some (seed_namespaces env) ∧
    finalized_schemalocs self' = Some schemaloc_dict.
Proof.
  intros Hne Hnone. rewrite finalize_fresh. cbv zeta.
  eexists _, _. split; [done|]. split; [done|]. simpl. f_equal.
  rewrite schemaloc_step_no_default; simpl.
  - by rewrite bool_decide_eq_false_2.
  - intros key [[k ns] [-> Hin]]%list_elem_of_fmap. apply Hnone. exists ns.
    apply elem_of_map_to_list. by rewrite <-iteritems_perm.
Qed.
End SchemaLocations.

(** C2 at a concrete call: the namespace [http://stix.mitre.org/stix-1] is
    in the default schema-location table and is the finalized namespace of
    the prefix [stix], yet the finalized schema locations keep the
    caller's location for it, and hold no location for it at all when
    nobody supplied one: the loop runs over the keys of
    [finalized_namespaces], which are the prefixes. *)
Lemma default_schemaloc_is_not_applied :
  DEFAULT_STIX_SCHEMALOCATIONS example_env !! "http://stix.mitre.org/stix-1"
    = Some "http://stix.mitre.org/XMLSchema/core/1.1.1/stix_core.xsd" ∧
  (∃ fin,
     finalized_namespaces
       (finalize example_env None (Some own_stix_schemaloc) __init__).1 = Some fin ∧
     fin !! "stix" = Some "http://stix.mitre.org/stix-1") ∧
  (∃ warned,
     (finalize example_env None (Some own_stix_schemaloc) __init__).2 = Ok warned) ∧
  finalized_schemalocs
    (finalize example_env None (Some own_stix_schemaloc) __init__).1
    = Some own_stix_schemaloc ∧
  finalized_schemalocs
    (finalize example_env None None
       (set_input_schemalocs own_stix_schemaloc __init__)).1
    = Some own_stix_schemaloc ∧
  finalized_schemalocs (finalize example_env None None __init__).1 = Some ∅.
Proof.
  split; [by vm_compute|]. split; [|split; [|split; [|split]]].
  - eexists. split; [reflexivity | by vm_compute].
  - eexists. vm_compute. reflexivity.
  - by vm_compute.
  - by vm_compute.
  - by vm_compute.
Qed.

(** ** Merging registries *)

Section Update.
Implicit Types (self ns_info : NamespaceInfo.t).

(** [update] merges three dictionaries, the entries of the other
    registry replacing those of this one... *)
Lemma update_merges_dicts self ns_info :
  _collected_namespaces (update self ns_info)
    = _collected_namespaces ns_info ∪ _collected_namespaces self ∧
  _input_namespaces (update self ns_info)
    = _input_namespaces ns_info ∪ _input_namespaces self ∧
  _input_schemalocs (update self ns_info)
    = _input_schemalocs ns_info ∪ _input_schemalocs self.
Proof. done. Qed.

(** ... and leaves the set of collected classes, from which [finalize]
    derives the collected namespaces, as it was. *)
Lemma update_keeps_collected_classes self ns_info :
  _collected_classes (update self ns_info) = _collected_classes self.
Proof. done. Qed.
(** Before [finalize] only [collect] has run, and [collect] never writes
    [_collected_namespaces]: merging two such registries merges nothing
    that came from the classes they visited. *)
Lemma update_of_collected nodes nodes' :
  let self := foldl collect __init__ nodes in
  let ns_info := foldl collect __init__ nodes' in
  _collected_namespaces (update self ns_info) = ∅ ∧
  _collected_namespaces_None (update self ns_info) = Some ∅ ∧
  _collected_classes (update self ns_info) = _collected_classes self.
Proof.
  intros self ns_info.
  destruct (collect_all_preserves nodes __init__) as (Hb & Hc & _).
  destruct (collect_all_preserves nodes' __init__) as (Hb' & Hc' & _).
  simpl in Hb, Hc, Hb', Hc'. fold self in Hb, Hc. fold ns_info in Hb', Hc'.
  destruct (update_merges_dicts self ns_info) as (-> & _).
  rewrite Hc, Hc'. split; [by rewrite (left_id_L ∅ (∪))|]. split; [|done].
  unfold update; simpl. by rewrite Hb'.
Qed.
End Update.

(** C5 at two concrete registries, neither finalized: one visited a
    package, the other an indicator.  After [update] the class of the
    indicator is not among the collected classes, and [finalize] on the
    merged registry has no [indicator] prefix, which the second registry
    alone would have produced. *)
Lemma update_drops_collected_classes :
  let self := collect __init__ (node_of STIXPackage_klass) in
  let ns_info := collect __init__ (node_of Indicator_klass) in
  Indicator_klass ∈ _collected_classes ns_info ∧
  (Indicator_klass ∉ _collected_classes (update self ns_info)) ∧
  _collected_classes (update self ns_info) ≠
    _collected_classes self ∪ _collected_classes ns_info ∧
  (∃ fin,
     finalized_namespaces (finalize example_env None None ns_info).1 = Some fin ∧
     fin !! "indicator" = Some "http://stix.mitre.org/Indicator-2") ∧
  (∃ warned fin,
     (finalize example_env None None (update self ns_info)).2 = Ok warned ∧
     finalized_namespaces (finalize example_env None None (update self ns_info)).1
       = Some fin ∧
     fin !! "indicator" = None).
Proof.
  intros self ns_info.
  assert (_collected_classes ns_info = {[Indicator_klass]}) as Hother
    by (unfold ns_info; by rewrite collect_node_of).
  assert (_collected_classes (update self ns_info) = {[STIXPackage_klass]}) as Hmerged
    by (unfold self; by rewrite update_keeps_collected_classes, collect_node_of).
  assert (Indicator_klass ∉ ({[STIXPackage_klass]} : gset Klass)) as Hnotin
    by (intros ?%elem_of_singleton; discriminate).
  split; [rewrite Hother; by apply elem_of_singleton|].
  split; [by rewrite Hmerged|]. split.
  - rewrite Hmerged, update_keeps_collected_classes in *.
    intros Heq. apply Hnotin. rewrite Heq. apply elem_of_union_r.
    rewrite Hother. by apply elem_of_singleton.
  - split.
    + eexists. split; [reflexivity | by vm_compute].
    + eexists _, _. split; [vm_compute; reflexivity|].
      split; [reflexivity | by vm_compute].
Qed.

(** ** Rendering *)

Section Rendering.
Context `{IterOrder}.

#[local] Instance item_le_total : Total item_le.
Proof.
  intros x y. unfold item_le.
  rewrite (String.compare_antisym y.1 x.1).
  destruct (String.compare x.1 y.1); simpl; [|by left|by right].
  apply String.leb_total.
Qed.

Lemma item_le_fst x y : item_le x y → String.leb x.1 y.1 = true.
Proof.
  unfold item_le, String.leb. by destruct (String.compare x.1 y.1).
Qed.

(** [get_xmlns_str] takes the keys of its argument for namespaces and
    the values for prefixes: its lines follow the order of the keys and
    show the value before the equals sign, the key between the quotes. *)
Lemma get_xmlns_str_lines (ns_dict : gmap string string) :
  ∃ pairs,
    pairs ≡ₚ map_to_list ns_dict ∧
    Sorted item_le pairs ∧
    get_xmlns_str ns_dict =
      join newline_tab
        (map (λ kv, "xmlns:" ++ kv.2 ++ "=" ++ quote ++ kv.1 ++ quote) pairs).
Proof.
  exists (sorted (iteritems ns_dict)). split; [|split].
  - unfold sorted. by rewrite merge_sort_Permutation, iteritems_perm.
  - apply Sorted_merge_sort, _.
  - unfold get_xmlns_str. f_equal. apply map_ext. by intros [ns alias].
Qed.
End Rendering.

(** C8 at the finalized namespaces of a document that holds a package:
    that map binds prefixes to namespaces, so [get_xmlns_str] puts each
    namespace before the equals sign and its prefix between the quotes,
    and orders the lines by prefix. *)
Lemma xmlns_str_of_finalized_namespaces :
  ∃ fin,
    get_namespaces example_env [node_of STIXPackage_klass] None = Ok (Some fin) ∧
    fin !! "cybox" = Some "http://cybox.mitre.org/cybox-2" ∧
    fin !! "xsi" = Some "http://www.w3.org/2001/XMLSchema-instance" ∧
    get_xmlns_str fin = fresh_xmlns_str.
Proof.
  eexists. split; [vm_compute; reflexivity|].
  split; [by vm_compute|]. split; by vm_compute.
Qed.

(** * Further properties of the registry and of the rendering *)

(** ** Collecting *)

Section CollectMore.
Implicit Types (self : NamespaceInfo.t) (entity : Entity).

Lemma collect_classes self entity :
  _collected_classes (collect self entity)
  = _collected_classes self ∪ list_to_set (__mro__ entity).
Proof.
  unfold collect.
  by destruct (__input_namespaces__ entity), (__input_schemalocations__ entity).
Qed.

(** X1: after [collect] has run over any nodes, the collected classes are
    those the registry had together with every class of the method
    resolution order of every node; [_collected_namespaces] (both the
    bucket under [None] and the string keys) and the two finalized maps
    are what they were. *)
Theorem collect_gathers_every_mro nodes : ∀ self,
  _collected_classes (foldl collect self nodes)
    = _collected_classes self ∪ list_to_set (nodes ≫= __mro__) ∧
  _collected_namespaces_None (foldl collect self nodes)
    = _collected_namespaces_None self ∧
  _collected_namespaces (foldl collect self nodes) = _collected_namespaces self ∧
  finalized_namespaces (foldl collect self nodes) = finalized_namespaces self ∧
  finalized_schemalocs (foldl collect self nodes) = finalized_schemalocs self.
Proof.
  intros self. split; [|apply collect_all_preserves].
  revert self. induction nodes as [|entity nodes IH]; intros self; simpl.
  - by rewrite (right_id_L ∅ (∪)).
  - rewrite IH, collect_classes, list_to_set_app_L. by rewrite (assoc_L (∪)).
Qed.

Lemma dict_update_twice {V} (a m : gmap string V) :
  dict_update (dict_update a m) m = dict_update a m.
Proof. unfold dict_update. by rewrite (assoc_L (∪)), (idemp_L (∪)). Qed.

Lemma union_twice (s t : gset Klass) : s ∪ t ∪ t = s ∪ t.
Proof. by rewrite <-(assoc_L (∪)), (idemp_L (∪)). Qed.

(** X2: collecting the same entity a second time changes nothing. *)
Theorem collect_idempotent self entity :
  collect (collect self entity) entity = collect self entity.
Proof.
  unfold collect.
  destruct self as [b c i s k fn fs].
  destruct (__input_namespaces__ entity) as [m|],
           (__input_schemalocations__ entity) as [m'|]; simpl;
    by rewrite ?dict_update_twice, union_twice.
Qed.
End CollectMore.

(** ** Merging *)

Section UpdateMore.
Implicit Types (a b c : NamespaceInfo.t).

(** X3: [update] is associative, and merging a registry into itself
    changes nothing. *)
Theorem update_assoc_idemp a b c :
  update (update a b) c = update a (update b c) ∧ update a a = a.
Proof.
  split.
  - unfold update, dict_update, set_collected, set_input_namespaces,
      set_input_schemalocs; simpl.
    f_equal; try by rewrite (assoc_L (∪)).
    by destruct (_collected_namespaces_None c), (_collected_namespaces_None b).
  - destruct a as [bk cn i s k fn fs].
    unfold update, dict_update, set_collected, set_input_namespaces,
      set_input_schemalocs; simpl.
    f_equal; try by rewrite (idemp_L (∪)).
    by destruct bk.
Qed.
End UpdateMore.

(** ** Strings: [split] and [join] *)

Section SplitJoin.
Implicit Types (s cur : string).

Lemma append_cons c s1 s2 : String c s1 ++ s2 = String c (s1 ++ s2).
Proof. reflexivity. Qed.

Lemma append_nil_l s : "" ++ s = s.
Proof. reflexivity. Qed.

Lemma append_nil_r s : s ++ "" = s.
Proof. induction s as [|c s IH]; [done|]. by rewrite append_cons, IH. Qed.

Lemma append_assoc s1 s2 s3 : (s1 ++ s2) ++ s3 = s1 ++ (s2 ++ s3).
Proof.
  induction s1 as [|c s1 IH]; [done|]. by rewrite !append_cons, IH.
Qed.

Lemma append_snoc cur c s : (cur ++ String c "") ++ s = cur ++ String c s.
Proof. by rewrite append_assoc. Qed.

Lemma colon_free_app s1 s2 :
  colon_free (s1 ++ s2) = colon_free s1 && colon_free s2.
Proof.
  induction s1 as [|c s1 IH]; [done|].
  rewrite append_cons. simpl. rewrite IH. by rewrite andb_assoc.
Qed.

Lemma split_colon_aux_nonempty s : ∀ cur, split_colon_aux cur s ≠ [].
Proof.
  induction s as [|c s IH]; intros cur; simpl; [done|].
  destruct (Ascii.eqb c ":"); [done | apply IH].
Qed.

Lemma join_cons sep p ps :
  ps ≠ [] → join sep (p :: ps) = p ++ sep ++ join sep ps.
Proof. by destruct ps. Qed.

(** [":".join(s.split(":")) == s] *)
Lemma join_split_colon_aux s : ∀ cur,
  join ":" (split_colon_aux cur s) = cur ++ s.
Proof.
  induction s as [|c s IH]; intros cur; simpl.
  - by rewrite append_nil_r.
  - destruct (Ascii.eqb c ":") eqn:Hc.
    + apply Ascii.eqb_eq in Hc as ->.
      rewrite join_cons by apply split_colon_aux_nonempty.
      by rewrite IH.
    + by rewrite IH, append_snoc.
Qed.

Lemma split_colon_aux_colon_free s : ∀ cur,
  colon_free cur = true →
  Forall (λ part, colon_free part = true) (split_colon_aux cur s).
Proof.
  induction s as [|c s IH]; intros cur Hcur; simpl.
  - by constructor.
  - destruct (Ascii.eqb c ":") eqn:Hc.
    + constructor; [done|]. by apply IH.
    + apply IH. rewrite colon_free_app, Hcur. simpl. by rewrite Hc.
Qed.

Lemma split_colon_aux_free s : ∀ cur,
  colon_free s = true → split_colon_aux cur s = [cur ++ s].
Proof.
  induction s as [|c s IH]; intros cur Hs; simpl.
  - by rewrite append_nil_r.
  - simpl in Hs. apply andb_true_iff in Hs as [Hc Hs].
    apply negb_true_iff in Hc. rewrite Hc, IH by done. by rewrite append_snoc.
Qed.

Lemma split_colon_aux_at_colon s1 s2 : ∀ cur,
  colon_free s1 = true →
  split_colon_aux cur (s1 ++ ":" ++ s2) = (cur ++ s1) :: split_colon_aux "" s2.
Proof.
  induction s1 as [|c s1 IH]; intros cur Hs1.
  - rewrite append_nil_l, append_cons, append_nil_l, append_nil_r. simpl.
    done.
  - simpl in Hs1. apply andb_true_iff in Hs1 as [Hc Hs1].
    apply negb_true_iff in Hc. rewrite append_cons. simpl.
    rewrite Hc, IH by done. by rewrite append_snoc.
Qed.

(** A string splits into exactly two parts when it is two colon-free
    strings with one colon between them. *)
Lemma split_colon_two s prefix name :
  split_colon s = [prefix; name] ↔
  s = prefix ++ ":" ++ name ∧ colon_free prefix = true ∧ colon_free name = true.
Proof.
  unfold split_colon. split.
  - intros Hsplit.
    pose proof (join_split_colon_aux s "") as Hjoin.
    pose proof (split_colon_aux_colon_free s "" eq_refl) as Hfree.
    rewrite Hsplit in Hjoin, Hfree.
    apply Forall_cons in Hfree as [Hp Hn%Forall_cons_1].
    rewrite append_nil_l in Hjoin.
    split; [symmetry; exact Hjoin | by destruct Hn].
  - intros (-> & Hp & Hn).
    rewrite split_colon_aux_at_colon by done.
    by rewrite split_colon_aux_free, !append_nil_l by done.
Qed.
End SplitJoin.

(** ** Alias derivation *)

Section AliasDerivation.
Context `{IterOrder}.
Implicit Types (klass : Klass) (self : NamespaceInfo.t).

(** X4: for a class without [_XSI_NS], the prefix derived from its
    [_XSI_TYPE] is [prefix] exactly when the attribute reads
    [prefix:name] with no further colon; any other [_XSI_TYPE] (no colon,
    or more than one) gives no prefix. *)
Theorem derived_prefix_of_xsi_type klass xsi_type prefix :
  truthy (_XSI_NS klass) = false →
  _XSI_TYPE klass = Some xsi_type →
  derived_prefix klass = Some prefix ↔
  ∃ name, xsi_type = prefix ++ ":" ++ name ∧
          colon_free prefix = true ∧ colon_free name = true.
Proof.
  intros Halias Htype. unfold derived_prefix. rewrite Halias, Htype. simpl.
  destruct (String.eqb xsi_type "") eqn:Hempty; simpl.
  - apply String.eqb_eq in Hempty as ->. split; [done|].
    intros (name & Heq & _). destruct prefix; discriminate.
  - destruct (split_colon xsi_type) as [|p [|n [|? ?]]] eqn:Hsplit.
    + split; [done|]. intros (name & Htwo). apply split_colon_two in Htwo.
      congruence.
    + split; [done|]. intros (name & Htwo). apply split_colon_two in Htwo.
      congruence.
    + split.
      * intros [= <-]. exists n. by apply split_colon_two.
      * intros (name & Htwo). apply split_colon_two in Htwo. congruence.
    + split; [done|]. intros (name & Htwo). apply split_colon_two in Htwo.
      congruence.
Qed.

Lemma parse_class_cases bucket collected klass :
  parse_class (bucket, collected) klass =
    match _namespace klass with
    | Some ns =>
        if String.eqb ns "" then (bucket, collected)
        else match derived_prefix klass with
             | Some prefix => (bucket, <[prefix := ns]> collected)
             | None => ({[ns]} ∪ bucket, collected)
             end
    | None => (bucket, collected)
    end.
Proof.
  unfold parse_class, derived_prefix.
  destruct (_namespace klass) as [ns|]; simpl; [|done].
  destruct (String.eqb ns ""); simpl; [done|].
  destruct (_XSI_NS klass) as [alias|]; simpl.
  - destruct (String.eqb alias ""); simpl; [|done].
    destruct (truthy (_XSI_TYPE klass)); simpl; [|done].
    by destruct (split_colon _) as [|? [|? [|? ?]]].
  - destruct (truthy (_XSI_TYPE klass)); simpl; [|done].
    by destruct (split_colon _) as [|? [|? [|? ?]]].
Qed.

(** One class: what it adds to the set under [None]... *)
Lemma parse_class_bucket bucket collected klass ns :
  ns ∈ (parse_class (bucket, collected) klass).1 ↔
  ns ∈ bucket ∨
  (_namespace klass = Some ns ∧ ns ≠ "" ∧ derived_prefix klass = None).
Proof.
  rewrite parse_class_cases.
  destruct (_namespace klass) as [kns|]; simpl.
  - destruct (String.eqb kns "") eqn:Hempty; simpl.
    + apply String.eqb_eq in Hempty as ->.
      split; [by left|]. intros [?|([= <-] & ? & _)]; done.
    + apply String.eqb_neq in Hempty.
      destruct (derived_prefix klass) as [prefix|]; simpl.
      * split; [by left|]. intros [?|(_ & _ & ?)]; done.
      * rewrite elem_of_union, elem_of_singleton. split.
        -- intros [->|?]; [by right | by left].
        -- intros [?|([= <-] & _)]; [by right | by left].
  - split; [by left|]. intros [?|(? & _)]; done.
Qed.

(** ... which binding it writes ... *)
Lemma parse_class_collected bucket collected klass alias ns :
  (parse_class (bucket, collected) klass).2 !! alias = Some ns →
  collected !! alias = Some ns ∨
  (_namespace klass = Some ns ∧ ns ≠ "" ∧ derived_prefix klass = Some alias).
Proof.
  rewrite parse_class_cases.
  destruct (_namespace klass) as [kns|]; simpl; [|by left].
  destruct (String.eqb kns "") eqn:Hempty; simpl; [by left|].
  apply String.eqb_neq in Hempty.
  destruct (derived_prefix klass) as [prefix|]; simpl; [|by left].
  intros [[-> ->]|[_ ?]]%lookup_insert_Some; [by right | by left].
Qed.

(** ... and which bindings are there afterwards. *)
Lemma parse_class_bound bucket collected klass alias :
  is_Some (collected !! alias) ∨
  (∃ ns, _namespace klass = Some ns ∧ ns ≠ "" ∧
         derived_prefix klass = Some alias) →
  is_Some ((parse_class (bucket, collected) klass).2 !! alias).
Proof.
  rewrite parse_class_cases. intros Hbound.
  destruct (_namespace klass) as [kns|]; simpl.
  - destruct (String.eqb kns "") eqn:Hempty; simpl.
    + apply String.eqb_eq in Hempty as ->.
      destruct Hbound as [?|(ns & [= <-] & ? & _)]; done.
    + destruct (derived_prefix klass) as [prefix|]; simpl.
      * destruct (decide (prefix = alias)) as [->|Hne].
        -- rewrite lookup_insert_eq. by eexists.
        -- rewrite lookup_insert_ne by done.
           destruct Hbound as [?|(ns & _ & _ & [= ?])]; done.
      * destruct Hbound as [?|(ns & _ & _ & ?)]; done.
  - destruct Hbound as [?|(ns & ? & _)]; done.
Qed.

(** The loop of [_parse_collected_classes] over a list of classes. *)
Lemma parse_classes_spec classes : ∀ bucket collected,
  let parsed := foldl parse_class (bucket, collected) classes in
  (∀ ns, ns ∈ parsed.1 ↔
         ns ∈ bucket ∨
         ∃ klass, klass ∈ classes ∧ _namespace klass = Some ns ∧ ns ≠ "" ∧
                  derived_prefix klass = None) ∧
  (∀ alias ns, parsed.2 !! alias = Some ns →
         collected !! alias = Some ns ∨
         ∃ klass, klass ∈ classes ∧ _namespace klass = Some ns ∧ ns ≠ "" ∧
                  derived_prefix klass = Some alias) ∧
  (∀ alias,
         is_Some (collected !! alias) ∨
         (∃ klass ns, klass ∈ classes ∧ _namespace klass = Some ns ∧ ns ≠ "" ∧
                      derived_prefix klass = Some alias) →
         is_Some (parsed.2 !! alias)).
Proof.
  induction classes as [|k classes IH]; intros bucket collected;
    cbn [foldl]; cbv zeta.
  - simpl. split; [|split].
    + intros ns. split; [by left|]. intros [?|(? & Hin & _)]; [done|].
      by apply elem_of_nil in Hin.
    + intros alias ns ?. by left.
    + intros alias [?|(? & ? & Hin & _)]; [done|]. by apply elem_of_nil in Hin.
  - destruct (parse_class (bucket, collected) k) as [b1 c1] eqn:Hstep.
    destruct (IH b1 c1) as (IH1 & IH2 & IH3).
    pose proof (parse_class_bucket bucket collected k) as S1.
    pose proof (parse_class_collected bucket collected k) as S2.
    pose proof (parse_class_bound bucket collected k) as S3.
    rewrite Hstep in S1, S2, S3. simpl in S1, S2, S3.
    split; [|split].
    + intros ns. rewrite IH1, S1. split.
      * intros [[?|?]|(klass & Hin & ?)]; [by left| |].
        -- right. exists k. split; [by left | done].
        -- right. exists klass. split; [by right | done].
      * intros [?|(klass & [->|Hin]%elem_of_cons & ?)];
          [by left; left | by left; right |].
        right. by exists klass.
    + intros alias ns [Hlook|(klass & Hin & ?)]%IH2.
      * apply S2 in Hlook as [?|?]; [by left|].
        right. exists k. split; [by left | done].
      * right. exists klass. split; [by right | done].
    + intros alias Hbound. apply IH3.
      destruct Hbound as [?|(klass & ns & [->|Hin]%elem_of_cons & ?)].
      * left. apply S3. by left.
      * left. apply S3. right. by exists ns.
      * right. by exists klass, ns.
Qed.

(** X5: what a successful [_parse_collected_classes] derives.  The set
    under [None] gains exactly the namespaces of the collected entity
    classes that have a non-empty namespace and no derivable prefix; a
    prefix bound afterwards was bound before to the same namespace or is
    the derived prefix of a collected entity class with that namespace;
    every prefix bound before and every derived prefix of a collected
    entity class is bound afterwards; the collected classes, the parsed
    input and the finalized maps are not written. *)
Theorem parse_collected_classes_spec self self1 :
  _parse_collected_classes self = (self1, Ok tt) →
  (∃ bucket bucket',
      _collected_namespaces_None self = Some bucket ∧
      _collected_namespaces_None self1 = Some bucket' ∧
      ∀ ns, ns ∈ bucket' ↔
            ns ∈ bucket ∨
            ∃ klass, klass ∈ _collected_classes self ∧ contributes klass ns ∧
                     derived_prefix klass = None) ∧
  (∀ alias ns, _collected_namespaces self1 !! alias = Some ns →
      _collected_namespaces self !! alias = Some ns ∨
      ∃ klass, klass ∈ _collected_classes self ∧ contributes klass ns ∧
               derived_prefix klass = Some alias) ∧
  (∀ alias,
      is_Some (_collected_namespaces self !! alias) ∨
      (∃ klass ns, klass ∈ _collected_classes self ∧ contributes klass ns ∧
                   derived_prefix klass = Some alias) →
      is_Some (_collected_namespaces self1 !! alias)) ∧
  _collected_classes self1 = _collected_classes self ∧
  _input_namespaces self1 = _input_namespaces self ∧
  _input_schemalocs self1 = _input_schemalocs self ∧
  finalized_namespaces self1 = finalized_namespaces self ∧
  finalized_schemalocs self1 = finalized_schemalocs self.
Proof.
  unfold _parse_collected_classes. unfold_M. unfold contributes.
  destruct (_collected_namespaces_None self) as [bucket|] eqn:Hbucket; [|done].
  pose proof (parse_classes_spec
                (filter (λ k, is_entity k = true) (iterset (_collected_classes self)))
                bucket (_collected_namespaces self)) as Hspec.
  destruct (foldl parse_class _ _) as [bucket' collected'].
  simpl in Hspec. destruct Hspec as (H1 & H2 & H3).
  assert (∀ klass,
            klass ∈ filter (λ k, is_entity k = true) (iterset (_collected_classes self))
            ↔ klass ∈ _collected_classes self ∧ is_entity klass = true) as Hmem.
  { intros klass. rewrite list_elem_of_filter, iterset_perm, elem_of_elements.
    split; intros [? ?]; by split. }
  intros [= <-]. simpl. split; [|split; [|split]]; [| | |done].
  - exists bucket, bucket'. split; [done|]. split; [done|].
    intros ns. rewrite H1. split.
    + intros [?|(klass & [? ?]%Hmem & ? & ? & ?)]; [by left|].
      right. by exists klass.
    + intros [?|(klass & ? & (? & ? & ?) & ?)]; [by left|].
      right. exists klass. split; [by apply Hmem | done].
  - intros alias ns [?|(klass & [? ?]%Hmem & ? & ? & ?)]%H2; [by left|].
    right. by exists klass.
  - intros alias Hsome. apply H3.
    destruct Hsome as [?|(klass & ns & ? & (? & ? & ?) & ?)]; [by left|].
    right. exists klass, ns. split; [by apply Hmem | done].
Qed.
End AliasDerivation.

(** ** The caller's dictionary turned round *)

Section Invert.
Context `{IterOrder}.

Lemma foldl_insert_lookup {V} (l : list (string * V)) : ∀ (m : gmap string V) k v,
  foldl (λ m kv, <[kv.1 := kv.2]> m) m l !! k = Some v →
  m !! k = Some v ∨ (k, v) ∈ l.
Proof.
  induction l as [|[k' v'] l IH]; intros m k v; simpl; [by left|].
  intros [Hlook|Hin]%IH; [|right; by right].
  apply lookup_insert_Some in Hlook as [[<- <-]|[_ ?]]; [right; by left | by left].
Qed.

Lemma foldl_insert_bound {V} (l : list (string * V)) : ∀ (m : gmap string V) k,
  is_Some (m !! k) ∨ k ∈ l.*1 →
  is_Some (foldl (λ m kv, <[kv.1 := kv.2]> m) m l !! k).
Proof.
  induction l as [|[k' v'] l IH]; intros m k; simpl.
  - intros [?|Hin]; [done | by apply elem_of_nil in Hin].
  - intros Hbound. apply IH. destruct (decide (k' = k)) as [->|Hne].
    + left. rewrite lookup_insert_eq. by eexists.
    + rewrite lookup_insert_ne by done.
      destruct Hbound as [?|[?|?]%elem_of_cons]; [by left | done | by right].
Qed.

(** X6: [finalize] turns the caller's namespace-to-prefix dictionary
    round.  Every prefix of the result is bound to a namespace the caller
    gave that prefix, and every prefix the caller used is bound; when the
    caller gave no prefix to two namespaces, the result is the exact
    inverse, and turning it round again gives the caller's dictionary
    back. *)
Theorem invert_spec (ns_dict : gmap string string) :
  (∀ alias ns, invert ns_dict !! alias = Some ns → ns_dict !! ns = Some alias) ∧
  (∀ alias ns, ns_dict !! ns = Some alias → is_Some (invert ns_dict !! alias)) ∧
  ((∀ ns1 ns2 alias, ns_dict !! ns1 = Some alias → ns_dict !! ns2 = Some alias →
                     ns1 = ns2) →
   (∀ alias ns, invert ns_dict !! alias = Some ns ↔ ns_dict !! ns = Some alias) ∧
   invert (invert ns_dict) = ns_dict).
Proof.
  assert (∀ alias ns, invert ns_dict !! alias = Some ns → ns_dict !! ns = Some alias)
    as Hsound.
  { intros alias ns Hlook. unfold invert, dict_of_pairs in Hlook.
    apply foldl_insert_lookup in Hlook as [Hlook|Hin]; [by rewrite lookup_empty in Hlook|].
    apply list_elem_of_fmap in Hin as ([ns' alias'] & [= -> ->] & Hin).
    rewrite iteritems_perm in Hin. by apply elem_of_map_to_list in Hin. }
  assert (∀ alias ns, ns_dict !! ns = Some alias → is_Some (invert ns_dict !! alias))
    as Hbound.
  { intros alias ns Hlook. unfold invert, dict_of_pairs.
    apply foldl_insert_bound. right.
    apply list_elem_of_fmap. exists (alias, ns). split; [done|].
    apply list_elem_of_fmap. exists (ns, alias). split; [done|].
    rewrite iteritems_perm. by apply elem_of_map_to_list. }
  split; [done|]. split; [done|]. intros Hinj.
  assert (∀ alias ns, invert ns_dict !! alias = Some ns ↔ ns_dict !! ns = Some alias)
    as Hiff.
  { intros alias ns. split; [apply Hsound|]. intros Hlook.
    destruct (Hbound _ _ Hlook) as [ns' Hns'].
    pose proof (Hsound _ _ Hns') as Hlook'.
    by rewrite (Hinj ns ns' alias Hlook Hlook'). }
  split; [done|]. apply map_eq. intros ns. apply option_eq. intros alias.
  split.
  - intros Hlook. apply Hiff. unfold invert, dict_of_pairs in Hlook.
    apply foldl_insert_lookup in Hlook as [Hlook|Hin]; [by rewrite lookup_empty in Hlook|].
    apply list_elem_of_fmap in Hin as ([alias' ns'] & [= -> ->] & Hin).
    rewrite iteritems_perm in Hin. by apply elem_of_map_to_list in Hin.
  - intros Hlook. apply Hiff in Hlook as Hinv.
    assert (is_Some (invert (invert ns_dict) !! ns)) as [alias' Halias'].
    { unfold invert at 1. unfold dict_of_pairs. apply foldl_insert_bound. right.
      apply list_elem_of_fmap. exists (ns, alias). split; [done|].
      apply list_elem_of_fmap. exists (alias, ns). split; [done|].
      rewrite iteritems_perm. by apply elem_of_map_to_list. }
    rewrite Halias'. f_equal.
    unfold invert at 1 in Halias'. unfold dict_of_pairs in Halias'.
    apply foldl_insert_lookup in Halias' as [Hl|Hin]; [by rewrite lookup_empty in Hl|].
    apply list_elem_of_fmap in Hin as ([a n] & [= -> ->] & Hin).
    rewrite iteritems_perm in Hin. apply elem_of_map_to_list in Hin.
    apply Hiff in Hin. congruence.
Qed.
End Invert.

(** ** Where the finalized namespaces come from *)

Section Sources.
Context `{IterOrder} (env : Env).
Implicit Types (d : gmap string string) (self : NamespaceInfo.t).

(** A loop whose steps either leave the dictionary alone or check and
    assign one pair: after a successful run the dictionary holds what it
    held and the pairs of the steps, nothing else. *)
Lemma for_each_sources {A} (body : gmap string string → A → result (gmap string string))
    (pair_of : A → option (string * string)) :
  (∀ d x d', body d x = Ok d' →
     match pair_of x with
     | Some (alias, ns) => check_and_assign d alias ns = Ok d'
     | None => d' = d
     end) →
  ∀ l d d', for_each body d l = Ok d' →
    ∀ alias ns, d' !! alias = Some ns ↔
                d !! alias = Some ns ∨ ∃ x, x ∈ l ∧ pair_of x = Some (alias, ns).
Proof.
  intros Hbody l. induction l as [|x l IH]; intros d d'; simpl.
  - intros [= <-] alias ns. split; [by left|].
    intros [?|(? & Hin & _)]; [done | by apply elem_of_nil in Hin].
  - unfold_result. destruct (body d x) as [d1|] eqn:Hx; [|done].
    intros Hl alias ns. rewrite (IH _ _ Hl). apply Hbody in Hx.
    assert (d ⊆ d1 ∧ ∀ a n, d1 !! a = Some n →
              d !! a = Some n ∨ pair_of x = Some (a, n)) as [Hsub Hnew].
    { destruct (pair_of x) as [[a' n']|].
      - apply check_and_assign_ok in Hx as [-> Hsub]. split; [done|].
        intros a n [[<- <-]|[_ ?]]%lookup_insert_Some; [by right | by left].
      - subst d1. split; [done|]. intros a n ?. by left. }
    split.
    + intros [Hd1|(y & Hin & Hy)].
      * apply Hnew in Hd1 as [?|?]; [by left|].
        right. exists x. split; [by left | done].
      * right. exists y. split; [by right | done].
    + intros [Hd|(y & [->|Hin]%elem_of_cons & Hy)].
      * left. by eapply lookup_weaken.
      * left. rewrite Hy in Hx. apply check_and_assign_ok in Hx as [-> _].
        by rewrite lookup_insert_eq.
      * right. by exists y.
Qed.

Lemma alias_step_sources l d d' :
  for_each alias_step d l = Ok d' →
  ∀ alias ns, d' !! alias = Some ns ↔ d !! alias = Some ns ∨ (alias, ns) ∈ l.
Proof.
  intros Hl alias ns.
  assert (∀ d x d', alias_step d x = Ok d' →
            match Some x with
            | Some (alias, ns) => check_and_assign d alias ns = Ok d'
            | None => d' = d
            end) as Hbody by (by intros ? [? ?] ?).
  rewrite (for_each_sources alias_step Some Hbody l d d' Hl).
  split; (intros [?|Hin]; [left; assumption | right]).
  - by destruct Hin as (x & ? & [= ->]).
  - by exists (alias, ns).
Qed.

Lemma input_step_sources l d d' :
  for_each (input_step env) d l = Ok d' →
  ∀ alias ns, d' !! alias = Some ns ↔
              d !! alias = Some ns ∨
              ((alias, ns) ∈ l ∧ in_DEFAULT_STIX_NAMESPACES_TUPLE env ns = false).
Proof.
  intros Hl alias ns.
  assert (∀ d x d', input_step env d x = Ok d' →
            match (if in_DEFAULT_STIX_NAMESPACES_TUPLE env x.2
                   then None else Some x) with
            | Some (alias, ns) => check_and_assign d alias ns = Ok d'
            | None => d' = d
            end) as Hbody.
  { intros d0 [a n] d0' Hx. unfold input_step in Hx. simpl.
    destruct (in_DEFAULT_STIX_NAMESPACES_TUPLE env n); [by injection Hx | done]. }
  rewrite (for_each_sources (input_step env)
             (λ x, if in_DEFAULT_STIX_NAMESPACES_TUPLE env x.2
                   then None else Some x) Hbody l d d' Hl).
  split; (intros [?|Hin]; [left; assumption | right]).
  - destruct Hin as ([a n] & ? & Hx). simpl in Hx.
    destruct (in_DEFAULT_STIX_NAMESPACES_TUPLE env n) eqn:Hwk; [done|].
    by injection Hx as -> ->.
  - destruct Hin as [Hin Hwk]. exists (alias, ns). simpl. by rewrite Hwk.
Qed.

Lemma no_alias_step_sources l d d' :
  for_each (no_alias_step env) d l = Ok d' →
  ∀ alias ns, d' !! alias = Some ns ↔
              d !! alias = Some ns ∨
              (ns ∈ l ∧ DEFAULT_STIX_NAMESPACES env !! ns = Some alias).
Proof.
  intros Hl alias ns.
  assert (∀ d x d', no_alias_step env d x = Ok d' →
            match (λ a, (a, x)) <$> DEFAULT_STIX_NAMESPACES env !! x with
            | Some (alias, ns) => check_and_assign d alias ns = Ok d'
            | None => d' = d
            end) as Hbody.
  { intros d0 x d0' Hx. unfold no_alias_step in Hx.
    by destruct (DEFAULT_STIX_NAMESPACES env !! x). }
  rewrite (for_each_sources (no_alias_step env)
             (λ x, (λ a, (a, x)) <$> DEFAULT_STIX_NAMESPACES env !! x)
             Hbody l d d' Hl).
  split; (intros [?|Hin]; [left; assumption | right]).
  - destruct Hin as (n & ? & Hx).
    destruct (DEFAULT_STIX_NAMESPACES env !! n) as [a|] eqn:Hdef; [|done].
    injection Hx as -> ->. done.
  - destruct Hin as [Hin Hdef]. exists ns. by rewrite Hdef.
Qed.

(** X7: the finalized namespaces of a successful [finalize] are exactly:
    the caller's dictionary turned round, the baseline with the id
    namespace, the parsed declarations whose namespace is not well-known,
    the default prefix of every namespace in the set under [None], and
    the collected prefixes -- the last three read from the registry as
    [_parse_collected_classes] leaves it.  No other binding is made, and
    none of these is missing. *)
Theorem finalized_namespaces_sources ns_dict schemaloc_dict self self' warned :
  finalize env ns_dict schemaloc_dict self = (self', Ok warned) →
  ∃ self1 fin,
    _parse_collected_classes self = (self1, Ok tt) ∧
    finalized_namespaces self' = Some fin ∧
    ∀ alias ns,
      fin !! alias = Some ns ↔
      caller_base ns_dict !! alias = Some ns ∨
      seed_namespaces env !! alias = Some ns ∨
      (fixed_input env self1 !! alias = Some ns ∧
       in_DEFAULT_STIX_NAMESPACES_TUPLE env ns = false) ∨
      (ns ∈ default ∅ (_collected_namespaces_None self1) ∧
       DEFAULT_STIX_NAMESPACES env !! ns = Some alias) ∨
      _collected_namespaces self1 !! alias = Some ns.
Proof.
  intros (self1 & self2 & fin & schemalocs & Hparse & Hns & _ & ->)%finalize_ok_inv.
  exists self1, fin. split; [done|]. split; [done|].
  rewrite finalize_namespaces_stages in Hns.
  destruct (after_input env self1) as [d1|] eqn:H1; [|done].
  injection Hns as _ Hns. unfold_result.
  destruct (for_each (no_alias_step env) d1 _) as [d2|] eqn:H2; [|done].
  destruct (for_each alias_step d2 _) as [d3|] eqn:H3; [|done].
  intros alias ns.
  rewrite (alias_step_sources _ _ _ Hns), iteritems_perm, elem_of_map_to_list.
  rewrite (alias_step_sources _ _ _ H3), iteritems_perm, elem_of_map_to_list.
  rewrite (no_alias_step_sources _ _ _ H2).
  unfold unaliased. rewrite iterset_perm, elem_of_elements.
  unfold after_input in H1.
  rewrite (input_step_sources _ _ _ H1), iteritems_perm, elem_of_map_to_list.
  tauto.
Qed.
End Sources.

(** ** What [finalize] can raise *)

Section Exceptions.
Context `{IterOrder} (env : Env).
Implicit Types (self : NamespaceInfo.t) (ns_dict schemaloc_dict : option (gmap string string)).

Lemma finalize_namespaces_raise_cases ns_dict self self' e :
  _finalize_namespaces env ns_dict self = (self', Raise e) →
  (∃ ns, e = KeyError (Some ns) ∧
         ns ∈ default ∅ (_collected_namespaces_None self) ∧
         DEFAULT_STIX_NAMESPACES env !! ns = None) ∨
  (∃ prefix cur ns,
      e = DuplicatePrefixError (conflict_message prefix ns cur)
            prefix (Tuple1 cur) ns ∧ cur ≠ ns).
Proof.
  rewrite finalize_namespaces_stages.
  destruct (after_input env self) as [d1|e1] eqn:H1.
  - unfold_result.
    destruct (for_each (no_alias_step env) d1 _) as [d2|e2] eqn:H2.
    + destruct (for_each alias_step d2 _) as [d3|e3] eqn:H3.
      * intros [= _ Hraise].
        apply for_each_raise_inv in Hraise
          as (l1 & [alias ns] & l2 & d & _ & _ & Hstep).
        apply check_and_assign_raise in Hstep as (cur & _ & Hne & ->).
        right. by exists alias, cur, ns.
      * intros [= _ ->].
        apply for_each_raise_inv in H3
          as (l1 & [alias ns] & l2 & d & _ & _ & Hstep).
        apply check_and_assign_raise in Hstep as (cur & _ & Hne & ->).
        right. by exists alias, cur, ns.
    + intros [= _ ->].
      apply for_each_raise_inv in H2 as (l1 & ns & l2 & d & Hl & _ & Hstep).
      unfold no_alias_step in Hstep.
      destruct (DEFAULT_STIX_NAMESPACES env !! ns) as [alias|] eqn:Hdef.
      * apply check_and_assign_raise in Hstep as (cur & _ & Hne & ->).
        right. by exists alias, cur, ns.
      * injection Hstep as <-. left. exists ns. split; [done|]. split; [|done].
        apply elem_of_elements. rewrite <-iterset_perm.
        unfold unaliased in Hl. rewrite Hl. apply elem_of_app. right. by left.
  - intros [= _ ->]. unfold after_input in H1.
    apply for_each_raise_inv in H1
      as (l1 & [alias ns] & l2 & d & _ & _ & Hstep).
    unfold input_step in Hstep.
    destruct (in_DEFAULT_STIX_NAMESPACES_TUPLE env ns); [done|].
    apply check_and_assign_raise in Hstep as (cur & _ & Hne & ->).
    right. by exists alias, cur, ns.
Qed.

(** X8: [finalize] raises one of three exceptions and no other:
    [KeyError(None)], when [_collected_namespaces] has lost its key
    [None], and then the registry is untouched; [KeyError(ns)], for a
    namespace of the set under [None] that the default table does not
    know; or a [DuplicatePrefixError] whose two namespaces differ.  It
    never raises [AttributeError], and whatever it raises, the two
    finalized maps are what they were before the call. *)
Theorem finalize_raises_only ns_dict schemaloc_dict self self' e :
  finalize env ns_dict schemaloc_dict self = (self', Raise e) →
  ((e = KeyError None ∧ _collected_namespaces_None self = None ∧ self' = self) ∨
   (∃ self1 ns,
       _parse_collected_classes self = (self1, Ok tt) ∧
       e = KeyError (Some ns) ∧
       ns ∈ default ∅ (_collected_namespaces_None self1) ∧
       DEFAULT_STIX_NAMESPACES env !! ns = None) ∨
   (∃ prefix cur ns,
       e = DuplicatePrefixError (conflict_message prefix ns cur)
             prefix (Tuple1 cur) ns ∧ cur ≠ ns)) ∧
  finalized_namespaces self' = finalized_namespaces self ∧
  finalized_schemalocs self' = finalized_schemalocs self.
Proof.
  intros Hfin. split; [|by eapply finalize_raise_finalized].
  apply finalize_raise_inv in Hfin as [Hparse|(self1 & Hparse & Hns)].
  - left. unfold _parse_collected_classes in Hparse. unfold_M.
    destruct (_collected_namespaces_None self).
    + by destruct (foldl _ _ _).
    + by injection Hparse as <- <-.
  - right.
    apply finalize_namespaces_raise_cases in Hns as [(ns & -> & ? & ?)|Hdup].
    + left. by exists self1, ns.
    + by right.
Qed.

(** X9: the caller's schema locations have no part in the namespaces:
    whatever [schemaloc_dict] is, [finalize] publishes the same
    [finalized_namespaces] and raises the same exception, if any. *)
Theorem finalize_namespaces_ignore_schemalocs ns_dict schemaloc_dict schemaloc_dict' self :
  finalized_namespaces (finalize env ns_dict schemaloc_dict self).1
    = finalized_namespaces (finalize env ns_dict schemaloc_dict' self).1 ∧
  ∀ e, (finalize env ns_dict schemaloc_dict self).2 = Raise e ↔
       (finalize env ns_dict schemaloc_dict' self).2 = Raise e.
Proof.
  unfold finalize. unfold_M.
  destruct (_parse_collected_classes self) as [self1 [[]|e1]]; [|done].
  destruct (_finalize_namespaces env ns_dict self1) as [self2 [fin|e2]]; [|done].
  cbv beta iota.
  destruct (finalize_schemalocs_total env schemaloc_dict
              (set_finalized_namespaces fin self2) fin eq_refl)
    as (s1 & w1 & ->).
  destruct (finalize_schemalocs_total env schemaloc_dict'
              (set_finalized_namespaces fin self2) fin eq_refl)
    as (s2 & w2 & ->).
  by cbv beta iota.
Qed.
End Exceptions.

(** ** Where the finalized schema locations come from *)

Section SchemaLocationSources.
Context `{IterOrder} (env : Env).
Implicit Types (self : NamespaceInfo.t) (sd : gmap string string).

Lemma dict_mem_true {V} (k : string) (m : gmap string V) :
  dict_mem k m = true ↔ is_Some (m !! k).
Proof. unfold dict_mem. apply bool_decide_eq_true. Qed.

Lemma dict_mem_false {V} (k : string) (m : gmap string V) :
  dict_mem k m = false ↔ m !! k = None.
Proof.
  unfold dict_mem. rewrite bool_decide_eq_false. by rewrite eq_None_not_Some.
Qed.

Lemma iterkeys_elem {V} (m : gmap string V) key :
  key ∈ iterkeys m ↔ is_Some (m !! key).
Proof.
  unfold iterkeys. rewrite list_elem_of_fmap. split.
  - intros ([k v] & -> & Hin). rewrite iteritems_perm in Hin.
    apply elem_of_map_to_list in Hin. by exists v.
  - intros [v Hv]. exists (key, v). split; [done|].
    rewrite iteritems_perm. by apply elem_of_map_to_list.
Qed.

(** The first loop of [_finalize_schemalocs] adds the parsed locations
    under the keys that are still free. *)
Lemma input_schemaloc_steps l : ∀ sd,
  foldl input_schemaloc_step sd l = sd ∪ list_to_map l.
Proof.
  induction l as [|[ns loc] l IH]; intros sd; simpl.
  - by rewrite (right_id_L ∅ (∪)).
  - rewrite IH. unfold dict_mem. case_bool_decide as Hmem; apply map_eq; intros k.
    + rewrite !lookup_union. destruct (decide (ns = k)) as [->|Hne].
      * destruct Hmem as [v ->]. by rewrite !union_Some_l.
      * by rewrite lookup_insert_ne.
    + apply eq_None_not_Some in Hmem.
      rewrite !lookup_union. destruct (decide (ns = k)) as [->|Hne].
      * rewrite !lookup_insert_eq, Hmem. simpl.
        by rewrite union_Some_l, (left_id_L None (∪)).
      * by rewrite !lookup_insert_ne.
Qed.

(** The second loop: a key of the list that the default table knows gets
    the default location, every other key keeps what it had. *)
Lemma schemaloc_steps_lookup keys : ∀ acc key,
  (foldl (schemaloc_step env) acc keys).1 !! key =
    match DEFAULT_STIX_SCHEMALOCATIONS env !! key with
    | Some loc => if decide (key ∈ keys) then Some loc else acc.1 !! key
    | None => acc.1 !! key
    end.
Proof.
  induction keys as [|k keys IH]; intros [sd w] key; cbn [foldl fst].
  - destruct (DEFAULT_STIX_SCHEMALOCATIONS env !! key); [|done].
    by rewrite decide_False by apply not_elem_of_nil.
  - rewrite IH.
    assert ((schemaloc_step env (sd, w) k).1 !! key =
              match DEFAULT_STIX_SCHEMALOCATIONS env !! k with
              | Some loc => if decide (k = key) then Some loc else sd !! key
              | None => sd !! key
              end) as ->.
    { unfold schemaloc_step.
      destruct (DEFAULT_STIX_SCHEMALOCATIONS env !! k) as [loc|]; simpl.
      - by rewrite lookup_insert.
      - by repeat case_match. }
    destruct (DEFAULT_STIX_SCHEMALOCATIONS env !! key) as [loc|] eqn:Hkey.
    + destruct (decide (key ∈ keys)) as [Hin|Hnotin].
      * rewrite (decide_True (P := key ∈ k :: keys)) by (by right). done.
      * destruct (decide (k = key)) as [->|Hne].
        -- rewrite Hkey.
           by rewrite (decide_True (P := key ∈ key :: keys)) by (by left).
        -- rewrite (decide_False (P := key ∈ k :: keys))
             by (intros [?|?]%elem_of_cons; [by apply Hne | done]).
           by destruct (DEFAULT_STIX_SCHEMALOCATIONS env !! k).
    + destruct (DEFAULT_STIX_SCHEMALOCATIONS env !! k) as [loc|] eqn:Hk; [|done].
      rewrite (decide_False (P := k = key)) by congruence. done.
Qed.

(** The warnings of the second loop. *)
Lemma schemaloc_steps_warned keys : ∀ acc w,
  w ∈ (foldl (schemaloc_step env) acc keys).2 ↔
  w ∈ acc.2 ∨
  ∃ key, key ∈ keys ∧ w = schemaloc_warning key ∧
         DEFAULT_STIX_SCHEMALOCATIONS env !! key = None ∧
         acc.1 !! key = None ∧
         key ≠ get_id_namespace env ∧ XML_NAMESPACES !! key = None.
Proof.
  induction keys as [|k keys IH]; intros [sd warned] w; cbn [foldl fst snd].
  - split; [by left|]. intros [?|(? & Hin & _)]; [done|].
    by apply elem_of_nil in Hin.
  - rewrite IH.
    assert (∀ key, DEFAULT_STIX_SCHEMALOCATIONS env !! key = None →
              (schemaloc_step env (sd, warned) k).1 !! key = sd !! key) as Hsame.
    { intros key Hkey. unfold schemaloc_step.
      destruct (DEFAULT_STIX_SCHEMALOCATIONS env !! k) as [loc|] eqn:Hk; simpl.
      - rewrite lookup_insert_ne by congruence. done.
      - by repeat case_match. }
    assert (w ∈ (schemaloc_step env (sd, warned) k).2 ↔
            w ∈ warned ∨
            (w = schemaloc_warning k ∧
             DEFAULT_STIX_SCHEMALOCATIONS env !! k = None ∧ sd !! k = None ∧
             k ≠ get_id_namespace env ∧ XML_NAMESPACES !! k = None)) as Hstep.
    { unfold schemaloc_step.
      destruct (DEFAULT_STIX_SCHEMALOCATIONS env !! k) as [loc|]; simpl.
      - split; [by left|]. by intros [?|(_ & ? & _)].
      - destruct (dict_mem k sd) eqn:Hmem; simpl.
        + apply dict_mem_true in Hmem as [v Hv].
          split; [by left|]. intros [?|(_ & _ & ? & _)]; [done | congruence].
        + apply dict_mem_false in Hmem.
          case_bool_decide as Hid; simpl.
          * split; [by left|]. by intros [?|(_ & _ & _ & ? & _)].
          * destruct (dict_mem k XML_NAMESPACES) eqn:Hxml; simpl.
            -- apply dict_mem_true in Hxml as [v Hv].
               split; [by left|]. intros [?|(_ & _ & _ & _ & ?)]; [done | congruence].
            -- apply dict_mem_false in Hxml.
               rewrite elem_of_app, list_elem_of_singleton.
               split; (intros [?|?]; [by left | right]); [by subst | by destruct_and!]. }
    rewrite Hstep. split.
    + intros [[?|(-> & ?)]|(key & Hin & ? & Hkey & Hsd & ?)].
      * by left.
      * right. exists k. split; [by left | done].
      * right. exists key. rewrite (Hsame key Hkey) in Hsd.
        split; [by right | done].
    + intros [?|(key & [->|Hin]%elem_of_cons & -> & Hkey & Hsd & ?)].
      * by left; left.
      * left. right. done.
      * right. exists key. by rewrite (Hsame key Hkey).
Qed.

(** [_finalize_schemalocs] on a registry with finalized namespaces. *)
Lemma finalize_schemalocs_eq schemaloc_dict self fin :
  finalized_namespaces self = Some fin →
  _finalize_schemalocs env schemaloc_dict self =
    (self,
     Ok (foldl (schemaloc_step env)
           (default ∅ schemaloc_dict ∪ _input_schemalocs self, [])
           (iterkeys fin))).
Proof.
  intros Hfin. unfold _finalize_schemalocs. unfold_M. rewrite Hfin.
  rewrite input_schemaloc_steps, list_to_map_iteritems.
  assert ((if dict_truthy schemaloc_dict then default ∅ schemaloc_dict else ∅)
          = default ∅ schemaloc_dict) as ->; [|done].
  unfold dict_truthy. destruct schemaloc_dict as [m|]; simpl; [|done].
  case_bool_decide; by subst.
Qed.

Lemma finalize_namespaces_keeps_input_schemalocs ns_dict self self' res :
  _finalize_namespaces env ns_dict self = (self', res) →
  _input_schemalocs self' = _input_schemalocs self.
Proof.
  rewrite finalize_namespaces_stages.
  destruct (after_input env self); by intros [= <- _].
Qed.

(** The outcome of a successful [finalize], read for the schema
    locations. *)
Lemma finalize_ok_schemalocs ns_dict schemaloc_dict self self' warned :
  finalize env ns_dict schemaloc_dict self = (self', Ok warned) →
  ∃ fin,
    finalized_namespaces self' = Some fin ∧
    finalized_schemalocs self' =
      Some (foldl (schemaloc_step env)
              (default ∅ schemaloc_dict ∪ _input_schemalocs self, [])
              (iterkeys fin)).1 ∧
    warned = (foldl (schemaloc_step env)
                (default ∅ schemaloc_dict ∪ _input_schemalocs self, [])
                (iterkeys fin)).2.
Proof.
  intros (self1 & self2 & fin & schemalocs & Hparse & Hns & Hsl & ->)%finalize_ok_inv.
  exists fin. split; [done|].
  rewrite (finalize_schemalocs_eq schemaloc_dict
             (set_finalized_namespaces fin self2) fin eq_refl) in Hsl.
  apply parse_collected_classes_finalized in Hparse as (_ & _ & _ & Hin1).
  apply finalize_namespaces_keeps_input_schemalocs in Hns.
  simpl in Hsl. rewrite Hns, Hin1 in Hsl.
  injection Hsl as Hsl. by rewrite Hsl.
Qed.

(** X10: the finalized schema locations of a successful [finalize].  A
    key of [finalized_namespaces] that is a key of
    [DEFAULT_STIX_SCHEMALOCATIONS] has the default location; any other key
    has the caller's location if the caller gave one, else the location
    collected from the parsed documents, else none. *)
Theorem finalized_schemalocs_sources ns_dict schemaloc_dict self self' warned :
  finalize env ns_dict schemaloc_dict self = (self', Ok warned) →
  ∃ fin schemalocs,
    finalized_namespaces self' = Some fin ∧
    finalized_schemalocs self' = Some schemalocs ∧
    ∀ key,
      schemalocs !! key =
        match DEFAULT_STIX_SCHEMALOCATIONS env !! key with
        | Some loc =>
            if decide (is_Some (fin !! key)) then Some loc
            else (default ∅ schemaloc_dict ∪ _input_schemalocs self) !! key
        | None => (default ∅ schemaloc_dict ∪ _input_schemalocs self) !! key
        end.
Proof.
  intros (fin & Hfn & Hfs & _)%finalize_ok_schemalocs.
  eexists fin, _. split; [done|]. split; [done|].
  intros key. rewrite schemaloc_steps_lookup. simpl.
  destruct (DEFAULT_STIX_SCHEMALOCATIONS env !! key); [|done].
  destruct (decide (key ∈ iterkeys fin)) as [Hin|Hnotin];
    rewrite iterkeys_elem in *.
  - by rewrite decide_True.
  - by rewrite decide_False.
Qed.

(** X11: the warnings of a successful [finalize] are the
    ["Unable to map namespace ... to schemaLocation"] messages for exactly
    the keys of [finalized_namespaces] that end without a schema location,
    are not the id namespace and are not keys of [XML_NAMESPACES]. *)
Theorem finalize_warnings ns_dict schemaloc_dict self self' warned :
  finalize env ns_dict schemaloc_dict self = (self', Ok warned) →
  ∃ fin schemalocs,
    finalized_namespaces self' = Some fin ∧
    finalized_schemalocs self' = Some schemalocs ∧
    ∀ w, w ∈ warned ↔
         ∃ key, is_Some (fin !! key) ∧ w = schemaloc_warning key ∧
                schemalocs !! key = None ∧
                key ≠ get_id_namespace env ∧ XML_NAMESPACES !! key = None.
Proof.
  intros (fin & Hfn & Hfs & ->)%finalize_ok_schemalocs.
  eexists fin, _. split; [done|]. split; [done|].
  intros w. rewrite schemaloc_steps_warned. simpl. split.
  - intros [Hin|(key & Hin & -> & Hdef & Hsd & ?)]; [by apply elem_of_nil in Hin|].
    exists key. rewrite <-iterkeys_elem. split; [done|]. split; [done|].
    split; [|done]. by rewrite schemaloc_steps_lookup, Hdef.
  - intros (key & Hin & -> & Hnone & ?). right. exists key.
    rewrite <-iterkeys_elem in Hin. split; [done|]. split; [done|].
    rewrite schemaloc_steps_lookup in Hnone. simpl in Hnone.
    destruct (DEFAULT_STIX_SCHEMALOCATIONS env !! key).
    + by rewrite decide_True in Hnone.
    + done.
Qed.
End SchemaLocationSources.

(** ** The further theorems at concrete registries *)

Section MoreWitnesses.
Lemma derived_prefix_of_xsi_type_witness :
  derived_prefix Indicator_klass = Some "indicator" ↔
  ∃ name, "indicator:IndicatorType" = "indicator" ++ ":" ++ name ∧
          colon_free "indicator" = true ∧ colon_free name = true.
Proof.
  apply (derived_prefix_of_xsi_type Indicator_klass "indicator:IndicatorType"
           "indicator").
  - reflexivity.
  - reflexivity.
Defined.

Example indicator_registry_parses :
  _parse_collected_classes indicator_registry = (indicator_parsed, Ok tt).
Proof. vm_cast_no_check (@eq_refl _ (indicator_parsed, @Ok unit tt)). Qed.

Lemma parse_collected_classes_spec_witness :
  (∃ bucket bucket',
      _collected_namespaces_None indicator_registry = Some bucket ∧
      _collected_namespaces_None indicator_parsed = Some bucket' ∧
      ∀ ns, ns ∈ bucket' ↔
            ns ∈ bucket ∨
            ∃ klass, klass ∈ _collected_classes indicator_registry ∧
                     contributes klass ns ∧ derived_prefix klass = None) ∧
  (∀ alias ns, _collected_namespaces indicator_parsed !! alias = Some ns →
      _collected_namespaces indicator_registry !! alias = Some ns ∨
      ∃ klass, klass ∈ _collected_classes indicator_registry ∧
               contributes klass ns ∧ derived_prefix klass = Some alias) ∧
  (∀ alias,
      is_Some (_collected_namespaces indicator_registry !! alias) ∨
      (∃ klass ns, klass ∈ _collected_classes indicator_registry ∧
                   contributes klass ns ∧ derived_prefix klass = Some alias) →
      is_Some (_collected_namespaces indicator_parsed !! alias)) ∧
  _collected_classes indicator_parsed = _collected_classes indicator_registry ∧
  _input_namespaces indicator_parsed = _input_namespaces indicator_registry ∧
  _input_schemalocs indicator_parsed = _input_schemalocs indicator_registry ∧
  finalized_namespaces indicator_parsed = finalized_namespaces indicator_registry ∧
  finalized_schemalocs indicator_parsed = finalized_schemalocs indicator_registry.
Proof.
  apply (parse_collected_classes_spec indicator_registry indicator_parsed).
  apply indicator_registry_parses.
Defined.

Lemma finalized_namespaces_sources_witness :
  ∃ self1 fin,
    _parse_collected_classes __init__ = (self1, Ok tt) ∧
    finalized_namespaces fresh_finalized = Some fin ∧
    ∀ alias ns,
      fin !! alias = Some ns ↔
      caller_base None !! alias = Some ns ∨
      seed_namespaces example_env !! alias = Some ns ∨
      (fixed_input example_env self1 !! alias = Some ns ∧
       in_DEFAULT_STIX_NAMESPACES_TUPLE example_env ns = false) ∨
      (ns ∈ default ∅ (_collected_namespaces_None self1) ∧
       DEFAULT_STIX_NAMESPACES example_env !! ns = Some alias) ∨
      _collected_namespaces self1 !! alias = Some ns.
Proof.
  apply (finalized_namespaces_sources example_env None None
           __init__ fresh_finalized fresh_warnings).
  apply fresh_finalize_succeeds.
Defined.

Example custom_registry_fails :
  finalize example_env None None custom_registry
  = (custom_failed, Raise (KeyError (Some "http://custom.example.org/ns-1"))).
Proof.
  vm_cast_no_check
    (@eq_refl _ (custom_failed,
                 @Raise (list string)
                   (KeyError (Some "http://custom.example.org/ns-1")))).
Qed.

Lemma finalize_raises_only_witness :
  ((KeyError (Some "http://custom.example.org/ns-1") = KeyError None ∧
    _collected_namespaces_None custom_registry = None ∧
    custom_failed = custom_registry) ∨
   (∃ self1 ns,
       _parse_collected_classes custom_registry = (self1, Ok tt) ∧
       KeyError (Some "http://custom.example.org/ns-1") = KeyError (Some ns) ∧
       ns ∈ default ∅ (_collected_namespaces_None self1) ∧
       DEFAULT_STIX_NAMESPACES example_env !! ns = None) ∨
   (∃ prefix cur ns,
       KeyError (Some "http://custom.example.org/ns-1")
       = DuplicatePrefixError (conflict_message prefix ns cur)
           prefix (Tuple1 cur) ns ∧ cur ≠ ns)) ∧
  finalized_namespaces custom_failed = finalized_namespaces custom_registry ∧
  finalized_schemalocs custom_failed = finalized_schemalocs custom_registry.
Proof.
  apply (finalize_raises_only example_env None None custom_registry custom_failed).
  apply custom_registry_fails.
Defined.

Lemma finalized_schemalocs_sources_witness :
  ∃ fin schemalocs,
    finalized_namespaces fresh_finalized = Some fin ∧
    finalized_schemalocs fresh_finalized = Some schemalocs ∧
    ∀ key,
      schemalocs !! key =
        match DEFAULT_STIX_SCHEMALOCATIONS example_env !! key with
        | Some loc =>
            if decide (is_Some (fin !! key)) then Some loc
            else (default ∅ None ∪ _input_schemalocs __init__) !! key
        | None => (default ∅ None ∪ _input_schemalocs __init__) !! key
        end.
Proof.
  apply (finalized_schemalocs_sources example_env None None
           __init__ fresh_finalized fresh_warnings).
  apply fresh_finalize_succeeds.
Defined.

Lemma finalize_warnings_witness :
  ∃ fin schemalocs,
    finalized_namespaces fresh_finalized = Some fin ∧
    finalized_schemalocs fresh_finalized = Some schemalocs ∧
    ∀ w, w ∈ fresh_warnings ↔
         ∃ key, is_Some (fin !! key) ∧ w = schemaloc_warning key ∧
                schemalocs !! key = None ∧
                key ≠ get_id_namespace example_env ∧ XML_NAMESPACES !! key = None.
Proof.
  apply (finalize_warnings example_env None None
           __init__ fresh_finalized fresh_warnings).
  apply fresh_finalize_succeeds.
Defined.
End MoreWitnesses.

(** ** Rendering *)

Section RenderingMore.
#[local] Existing Instance item_le_total.

Lemma string_compare_refl s : String.compare s s = Eq.
Proof.
  induction s as [|c s IH]; simpl; [done|].
  unfold Ascii.compare. by rewrite N.compare_refl.
Qed.

(** The order of [sorted]: by key, and by value between equal keys. *)
Lemma item_le_alt x y :
  item_le x y ↔
  (String.le x.1 y.1 ∧ x.1 ≠ y.1) ∨ (x.1 = y.1 ∧ String.le x.2 y.2).
Proof.
  unfold item_le, String.le, String.leb.
  destruct (String.compare x.1 y.1) eqn:Hcmp.
  - apply String.compare_eq_iff in Hcmp. split.
    + intros Hle. right. split; [done|]. by apply Is_true_true.
    + intros [[_ ?]|[_ Hle]]; [done|]. by apply Is_true_true.
  - split; [|done]. intros _. left. split; [done|].
    intros Heq. rewrite Heq, string_compare_refl in Hcmp. done.
  - split; [done|]. intros [[? _]|[Heq _]]; [done|].
    rewrite Heq, string_compare_refl in Hcmp. done.
Qed.

#[local] Instance item_le_trans : Transitive item_le.
Proof.
  intros x y z. rewrite !item_le_alt.
  intros [[Hxy Hne]|[Hxy Hv]] [[Hyz Hne']|[Hyz Hv']].
  - left. split; [by trans y.1|]. intros Heq. rewrite <-Heq in Hyz.
    apply Hne. by apply (anti_symm String.le).
  - left. by rewrite <-Hyz.
  - left. by rewrite Hxy.
  - right. split; [congruence | by trans y.2].
Qed.

#[local] Instance item_le_antisym : AntiSymm (=) item_le.
Proof.
  intros [k1 v1] [k2 v2]. rewrite !item_le_alt. simpl.
  intros [[Hxy Hne]|[-> Hv]] [[Hyx Hne']|[Heq Hv']]; try done.
  - exfalso. apply Hne. by apply (anti_symm String.le).
  - by rewrite (anti_symm String.le v1 v2).
Qed.

(** [sorted] does not depend on the order in which it is given the
    items. *)
Lemma sorted_perm l1 l2 : l1 ≡ₚ l2 → sorted l1 = sorted l2.
Proof.
  intros Hperm. unfold sorted.
  apply (Sorted_unique item_le); [apply Sorted_merge_sort, _ ..|].
  by rewrite !merge_sort_Permutation.
Qed.

Lemma sorted_by_key l :
  StronglySorted (λ x y, String.leb x.1 y.1 = true) (sorted l).
Proof.
  assert (StronglySorted item_le (sorted l)) as Hsorted
    by (apply StronglySorted_merge_sort; apply _).
  induction Hsorted as [|x l' _ IH Hall]; constructor; [done|].
  eapply Forall_impl; [exact Hall|]. intros y. apply item_le_fst.
Qed.

(** X12: whatever the order in which Python iterates the dictionaries,
    the three rendering functions return the same text. *)
Theorem rendering_is_deterministic (O1 O2 : IterOrder)
    (ns_dict schemaloc_dict : gmap string string) :
  @get_xmlns_str O1 ns_dict = @get_xmlns_str O2 ns_dict ∧
  @get_schemaloc_str O1 schemaloc_dict = @get_schemaloc_str O2 schemaloc_dict ∧
  @get_namespace_def_str O1 ns_dict schemaloc_dict
    = @get_namespace_def_str O2 ns_dict schemaloc_dict.
Proof.
  assert (∀ m : gmap string string,
            sorted (@iteritems O1 _ m) = sorted (@iteritems O2 _ m)) as Hsorted.
  { intros m. apply sorted_perm. by rewrite !iteritems_perm. }
  unfold get_namespace_def_str, get_schemaloc_str, get_xmlns_str.
  by rewrite !Hsorted.
Qed.

Context `{IterOrder}.

(** X13: [get_xmlns_str] on any dictionary: one line per item, the lines
    joined by a newline and a tab and ordered by key (byte order), each
    line reading [xmlns:], the value, an equals sign and the key between
    double quotes.  For a namespace-to-prefix dictionary these are the
    declarations [xmlns:prefix="namespace"] in the order of the
    namespaces; the empty dictionary gives the empty string. *)
Theorem get_xmlns_str_spec (ns_dict : gmap string string) :
  (∃ pairs,
     pairs ≡ₚ map_to_list ns_dict ∧
     StronglySorted (λ x y, String.leb x.1 y.1 = true) pairs ∧
     get_xmlns_str ns_dict =
       join newline_tab
         (map (λ kv, "xmlns:" ++ kv.2 ++ "=" ++ quote ++ kv.1 ++ quote) pairs)) ∧
  get_xmlns_str (∅ : gmap string string) = "".
Proof.
  split.
  - exists (sorted (iteritems ns_dict)). split; [|split].
    + unfold sorted. by rewrite merge_sort_Permutation, iteritems_perm.
    + apply sorted_by_key.
    + unfold get_xmlns_str. f_equal. apply map_ext. by intros [ns alias].
  - unfold get_xmlns_str. by rewrite iteritems_empty.
Qed.

(** X14: [get_schemaloc_str] gives the empty string for an empty
    dictionary, and otherwise the attribute [xsi:schemaLocation] whose
    value is a newline and a tab followed by one line [key value] per
    item, ordered by key.  [get_namespace_def_str] gives the empty string
    when both dictionaries are empty and otherwise the two texts joined by
    a newline and a tab -- so with namespaces but no schema locations the
    text ends with that separator. *)
Theorem schemaloc_and_def_str_spec (namespaces schemaloc_dict : gmap string string) :
  get_schemaloc_str (∅ : gmap string string) = "" ∧
  (schemaloc_dict ≠ ∅ →
   ∃ pairs,
     pairs ≡ₚ map_to_list schemaloc_dict ∧
     StronglySorted (λ x y, String.leb x.1 y.1 = true) pairs ∧
     get_schemaloc_str schemaloc_dict =
       "xsi:schemaLocation=" ++ quote ++ newline_tab
       ++ join newline_tab (map (λ kv, kv.1 ++ " " ++ kv.2) pairs) ++ quote) ∧
  get_namespace_def_str (∅ : gmap string string) ∅ = "" ∧
  (¬ (namespaces = ∅ ∧ schemaloc_dict = ∅) →
   get_namespace_def_str namespaces schemaloc_dict =
     get_xmlns_str namespaces ++ newline_tab ++ get_schemaloc_str schemaloc_dict) ∧
  (namespaces ≠ ∅ →
   get_namespace_def_str namespaces ∅ = get_xmlns_str namespaces ++ newline_tab).
Proof.
  assert (get_schemaloc_str (∅ : gmap string string) = "") as Hempty.
  { unfold get_schemaloc_str. by rewrite bool_decide_eq_true_2. }
  split; [done|]. split; [|split; [|split]].
  - intros Hne. exists (sorted (iteritems schemaloc_dict)). split; [|split].
    + unfold sorted. by rewrite merge_sort_Permutation, iteritems_perm.
    + apply sorted_by_key.
    + unfold get_schemaloc_str. rewrite bool_decide_eq_false_2 by done.
      cbv zeta.
      assert (map schemaloc_line (sorted (iteritems schemaloc_dict))
              = map (λ kv, kv.1 ++ " " ++ kv.2) (sorted (iteritems schemaloc_dict)))
        as -> by (apply map_ext; by intros [ns loc]).
      by rewrite !append_assoc.
  - unfold get_namespace_def_str. by rewrite !bool_decide_eq_true_2.
  - intros Hne. unfold get_namespace_def_str.
    destruct (decide (namespaces = ∅)) as [->|Hns].
    + rewrite bool_decide_eq_true_2 by done.
      rewrite bool_decide_eq_false_2 by (intros ->; by apply Hne). done.
    + rewrite bool_decide_eq_false_2 by done. done.
  - intros Hne. unfold get_namespace_def_str.
    rewrite bool_decide_eq_false_2 by done. simpl. by rewrite Hempty.
Qed.
End RenderingMore.

(** ** Validation of a namespace dictionary *)

Section Validate.
Context `{IterOrder}.

Lemma NoDup_fmap_inj_on {A B} (f : A → B) (l : list A) :
  NoDup (f <$> l) → ∀ x y, x ∈ l → y ∈ l → f x = f y → x = y.
Proof.
  induction l as [|a l IH]; intros Hnodup x y Hx Hy Hf.
  - by apply elem_of_nil in Hx.
  - rewrite fmap_cons in Hnodup. apply NoDup_cons in Hnodup as [Hnotin Hnodup].
    apply elem_of_cons in Hx as [->|Hx]; apply elem_of_cons in Hy as [->|Hy].
    + done.
    + exfalso. apply Hnotin. rewrite Hf. apply list_elem_of_fmap. by exists y.
    + exfalso. apply Hnotin. rewrite <-Hf. apply list_elem_of_fmap. by exists x.
    + by apply IH.
Qed.

Lemma validate_steps_grow l : ∀ aliases warned,
  ∃ more, (foldl validate_step (aliases, warned) l).2 = (warned ++ more)%list.
Proof.
  induction l as [|[ns alias] l IH]; intros aliases warned; cbn [foldl].
  - exists []. by rewrite (right_id_L [] (++)%list).
  - unfold validate_step at 2. destruct (negb (dict_mem alias aliases)).
    + apply IH.
    + destruct (IH aliases (warned ++ [duplicate_alias_warning alias ns])%list)
        as [more ->].
      eexists. by rewrite <-(assoc_L (++)%list).
Qed.

(** The loop stays silent exactly when the prefixes it meets are new and
    distinct. *)
Lemma validate_steps_silent l : ∀ aliases warned,
  (foldl validate_step (aliases, warned) l).2 = [] ↔
  warned = [] ∧ (∀ alias, alias ∈ l.*2 → aliases !! alias = None) ∧ NoDup l.*2.
Proof.
  induction l as [|[ns alias] l IH]; intros aliases warned; cbn [foldl].
  - simpl. split.
    + intros ->. split; [done|]. split; [|constructor].
      intros alias Hin. by apply elem_of_nil in Hin.
    + by intros [-> _].
  - unfold validate_step at 2. rewrite fmap_cons, NoDup_cons. simpl.
    destruct (dict_mem alias aliases) eqn:Hmem; simpl.
    + apply dict_mem_true in Hmem as [ns' Hns']. split.
      * intros Hsilent.
        destruct (validate_steps_grow l aliases
                    (warned ++ [duplicate_alias_warning alias ns])%list)
          as [more Hmore].
        rewrite Hmore in Hsilent.
        apply app_eq_nil in Hsilent as [Hsilent _].
        by apply app_eq_nil in Hsilent as [_ ?].
      * intros (_ & Hfresh & _). rewrite (Hfresh alias) in Hns' by (by left). done.
    + apply dict_mem_false in Hmem. rewrite IH. split.
      * intros (-> & Hfresh & Hnodup). split; [done|]. split; [|split; [|done]].
        -- intros a [->|Hin]%elem_of_cons; [done|].
           apply Hfresh in Hin as Hlook.
           apply lookup_insert_None in Hlook as [? _]. done.
        -- intros Hin. apply Hfresh in Hin. by rewrite lookup_insert_eq in Hin.
      * intros (-> & Hfresh & Hnotin & Hnodup). split; [done|]. split; [|done].
        intros a Hin. apply lookup_insert_None. split.
        -- apply Hfresh. by right.
        -- intros ->. done.
Qed.

(** Every warning of the loop names an item of the list. *)
Lemma validate_steps_warned l : ∀ aliases warned w,
  w ∈ (foldl validate_step (aliases, warned) l).2 →
  w ∈ warned ∨ ∃ ns alias, (ns, alias) ∈ l ∧ w = duplicate_alias_warning alias ns.
Proof.
  induction l as [|[ns alias] l IH]; intros aliases warned w; cbn [foldl].
  - intros ?. by left.
  - unfold validate_step at 2. destruct (negb (dict_mem alias aliases)).
    + intros [?|(ns' & alias' & Hin & ->)]%IH; [by left|].
      right. exists ns', alias'. split; [by right | done].
    + intros [Hin|(ns' & alias' & Hin & ->)]%IH.
      * apply elem_of_app in Hin as [?|Heq%list_elem_of_singleton]; [by left|].
        right. exists ns, alias. split; [by left | done].
      * right. exists ns', alias'. split; [by right | done].
Qed.

(** X15: [_validate_namespaces], given a namespace-to-prefix dictionary,
    issues no warning exactly when no two namespaces have the same
    prefix; each warning it issues names a prefix and a namespace that the
    dictionary binds to that prefix. *)
Theorem validate_namespaces_spec (ns_dict : gmap string string) :
  (_validate_namespaces ns_dict = [] ↔
   ∀ ns1 ns2 alias, ns_dict !! ns1 = Some alias → ns_dict !! ns2 = Some alias →
                    ns1 = ns2) ∧
  (∀ w, w ∈ _validate_namespaces ns_dict →
        ∃ ns alias, ns_dict !! ns = Some alias ∧
                    w = duplicate_alias_warning alias ns).
Proof.
  unfold _validate_namespaces. split.
  - rewrite validate_steps_silent. split.
    + intros (_ & _ & Hnodup) ns1 ns2 alias H1 H2.
      assert ((ns1, alias) = (ns2, alias)) as [= ->]; [|done].
      apply (NoDup_fmap_inj_on snd (iteritems ns_dict) Hnodup); [| |done];
        rewrite iteritems_perm; by apply elem_of_map_to_list.
    + intros Hinj. split; [done|]. split; [intros; apply lookup_empty|].
      apply NoDup_fmap_2_strong.
      * intros [ns1 a1] [ns2 a2] Hin1 Hin2 Heq. simpl in Heq. subst a2.
        rewrite iteritems_perm in Hin1, Hin2.
        apply elem_of_map_to_list in Hin1, Hin2.
        by rewrite (Hinj ns1 ns2 a1).
      * rewrite iteritems_perm. apply NoDup_map_to_list.
  - intros w [Hin|(ns & alias & Hin & ->)]%validate_steps_warned.
    + by apply elem_of_nil in Hin.
    + exists ns, alias. split; [|done].
      rewrite iteritems_perm in Hin. by apply elem_of_map_to_list in Hin.
Qed.
End Validate.
